(** * Q4.py: rate limiter, circuit breaker, dead-letter queue and retry decorator

    A shallow embedding of [src/Q4.py].  The four control structures of the
    module are embedded as they are written:

    - [DynamicRateLimiter] (token bucket with [set_rate] and [acquire]),
    - [CircuitBreaker] ([before], [success], [failure]),
    - the module-level [dead_letter = deque(maxlen=10000)],
    - the decorator [resilient], whose inner function [wrapper] is the retry
      loop.

    Python floats are idealised as rationals ([Q]); the wall clock
    ([time.time()]), the random generator ([random.random()]) and the wrapped
    function [fn] are oracles of an environment, consulted in call order.  The
    mutable objects the closure of [wrapper] shares (one limiter, one breaker,
    the global deque) live in one [world] that every method threads. *)

From Stdlib Require Import ZArith QArith Qminmax Qround Lqa Lia DecimalString.
From stdpp Require Import base strings gmap list.

(** ** Python values and exceptions *)

(** Opaque Python values: call arguments and response payloads. *)
Inductive pyobj :=
| PyNone
| PyInt (z : Z)
| PyStr (s : string).

(** An exception: its class name and [str(e)]. *)
Record exn := Exn { exn_type : string; exn_str : string }.

Definition RuntimeError (msg : string) : exn := Exn "RuntimeError" msg.
Definition ValueError (msg : string) : exn := Exn "ValueError" msg.
(** [str(KeyError('data'))] is the [repr] of the key: ['data']. *)
Definition KeyError (key : string) : exn := Exn "KeyError" ("'" +:+ key +:+ "'").

(** [needle in hay] on strings. *)
Fixpoint contains (needle hay : string) : bool :=
  String.prefix needle hay ||
  match hay with
  | EmptyString => false
  | String _ hay' => contains needle hay'
  end.

(** [str(z)] for an integer. *)
Definition str_int (z : Z) : string := NilZero.string_of_int (Z.to_int z).

(** [min(a, b)] and [max(a, b)] of Python: the first argument unless the
    second is strictly smaller (resp. greater). *)
Definition py_min (a b : Q) : Q := if Qlt_le_dec b a then b else a.
Definition py_max (a b : Q) : Q := if Qlt_le_dec a b then b else a.

(** ** The objects of the module *)

Record DynamicRateLimiter := {
  rate : Q;
  capacity : Z;
  tokens : Q;
  ts : Q
}.

Record CircuitBreaker := {
  fail_threshold : Z;
  reset_after : Q;
  fail_count : Z;
  open_until : Q
}.

(** [collections.deque(maxlen=...)], oldest item first. *)
Record deque (A : Type) := Deque { maxlen : nat; items : list A }.
Arguments Deque {A} _ _.
Arguments maxlen {A} _.
Arguments items {A} _.

(** [d.append(x)]: the item goes to the right end; a deque that is longer
    than [maxlen] afterwards loses its leftmost item. *)
Definition deque_append {A} (x : A) (d : deque A) : deque A :=
  let l := items d ++ [x] in
  Deque (maxlen d) (if (maxlen d <? length l)%nat then drop 1 l else l).

Definition deque_len {A} (d : deque A) : nat := length (items d).

(** The dictionaries put on the dead-letter queue. *)
Record entry := {
  args : list pyobj;
  kw : list (string * pyobj);
  reason : string
}.

(** [resp = {'status', 'headers', 'data'}]; a key may be missing. *)
Record response := {
  status : option Z;
  headers : option (gmap string string);
  data : option pyobj
}.

(** What one invocation of the wrapped function does. *)
Inductive outcome :=
| Returns (resp : response)
| Raises (e : exn).

(** ** Environment and world *)

(** The oracles.  [time_time i] is what the [i]-th call of [time.time()]
    returns, [random_random i] the [i]-th draw of [random.random()],
    [fn i a k] the outcome of the [i]-th invocation of the wrapped function
    (on arguments [a], [k]), and [float s] the builtin [float(s)] on a string:
    its value or the [ValueError] it raises. *)
Record env := {
  time_time : nat → Q;
  random_random : nat → Q;
  fn : nat → list pyobj → list (string * pyobj) → outcome;
  float : string → Q + exn
}.

(** Which [time.sleep] of the module a pause comes from. *)
Inductive sleep_site := AcquirePoll | Backoff.

Record world := {
  limiter : DynamicRateLimiter;
  breaker : CircuitBreaker;
  dead_letter : deque entry;
  clock_reads : nat;
  random_draws : nat;
  fn_calls : nat;
  sleeps : list (sleep_site * Q)
}.

Definition set_limiter (l : DynamicRateLimiter) (w : world) : world :=
  {| limiter := l; breaker := breaker w; dead_letter := dead_letter w;
     clock_reads := clock_reads w; random_draws := random_draws w;
     fn_calls := fn_calls w; sleeps := sleeps w |}.

Definition set_breaker (b : CircuitBreaker) (w : world) : world :=
  {| limiter := limiter w; breaker := b; dead_letter := dead_letter w;
     clock_reads := clock_reads w; random_draws := random_draws w;
     fn_calls := fn_calls w; sleeps := sleeps w |}.

Definition set_dead_letter (d : deque entry) (w : world) : world :=
  {| limiter := limiter w; breaker := breaker w; dead_letter := d;
     clock_reads := clock_reads w; random_draws := random_draws w;
     fn_calls := fn_calls w; sleeps := sleeps w |}.

Definition tick_clock (w : world) : world :=
  {| limiter := limiter w; breaker := breaker w; dead_letter := dead_letter w;
     clock_reads := S (clock_reads w); random_draws := random_draws w;
     fn_calls := fn_calls w; sleeps := sleeps w |}.

Definition tick_random (w : world) : world :=
  {| limiter := limiter w; breaker := breaker w; dead_letter := dead_letter w;
     clock_reads := clock_reads w; random_draws := S (random_draws w);
     fn_calls := fn_calls w; sleeps := sleeps w |}.

Definition tick_fn (w : world) : world :=
  {| limiter := limiter w; breaker := breaker w; dead_letter := dead_letter w;
     clock_reads := clock_reads w; random_draws := random_draws w;
     fn_calls := S (fn_calls w); sleeps := sleeps w |}.

Definition log_sleep (s : sleep_site) (d : Q) (w : world) : world :=
  {| limiter := limiter w; breaker := breaker w; dead_letter := dead_letter w;
     clock_reads := clock_reads w; random_draws := random_draws w;
     fn_calls := fn_calls w; sleeps := sleeps w ++ [(s, d)] |}.

(** ** The monad of the module's code *)

(** A computation returns, raises a Python exception, or is still polling
    when its fuel runs out ([acquire] is a [while True] loop). *)
Inductive result (A : Type) :=
| Ret (a : A)
| Raise (e : exn)
| Timeout.
Arguments Ret {A} _.
Arguments Raise {A} _.
Arguments Timeout {A}.

Definition M (A : Type) : Type := env → world → result A * world.

Definition ret {A} (a : A) : M A := λ _ w, (Ret a, w).

Definition bind {A B} (m : M A) (k : A → M B) : M B :=
  λ E w,
    match m E w with
    | (Ret a, w') => k a E w'
    | (Raise e, w') => (Raise e, w')
    | (Timeout, w') => (Timeout, w')
    end.

Declare Scope py_scope.
Delimit Scope py_scope with py.
Notation "x <- m ;; k" := (bind m (λ x, k))
  (at level 100, m at next level, k at level 200, right associativity) : py_scope.
Notation "m ;; k" := (bind m (λ _, k))
  (at level 100, k at level 200, right associativity) : py_scope.
Local Open Scope py_scope.

Definition raise {A} (e : exn) : M A := λ _ w, (Raise e, w).
Definition timeout {A} : M A := λ _ w, (Timeout, w).

(** [try: m / except Exception as e:] with the exception turned into a
    value. *)
Definition catch {A} (m : M A) : M (exn + A) :=
  λ E w,
    match m E w with
    | (Ret a, w') => (Ret (inr a), w')
    | (Raise e, w') => (Ret (inl e), w')
    | (Timeout, w') => (Timeout, w')
    end.

Definition get {A} (f : world → A) : M A := λ _ w, (Ret (f w), w).
Definition modify (f : world → world) : M unit := λ _ w, (Ret tt, f w).

(** [time.time()]. *)
Definition now : M Q :=
  λ E w, (Ret (time_time E (clock_reads w)), tick_clock w).

(** [random.random()]. *)
Definition random : M Q :=
  λ E w, (Ret (random_random E (random_draws w)), tick_random w).

(** [time.sleep(d)]: a negative [d] is a [ValueError]. *)
Definition sleep (s : sleep_site) (d : Q) : M unit :=
  if Qlt_le_dec d 0
  then raise (ValueError "sleep length must be non-negative")
  else modify (log_sleep s d).

(** The call of the wrapped function on the caller's arguments. *)
Definition call_fn (a : list pyobj) (k : list (string * pyobj)) : M response :=
  λ E w,
    match fn E (fn_calls w) a k with
    | Returns resp => (Ret resp, tick_fn w)
    | Raises e => (Raise e, tick_fn w)
    end.

(** [float(s)]. *)
Definition py_float (s : string) : M Q :=
  λ E w,
    match float E s with
    | inl q => (Ret q, w)
    | inr e => (Raise e, w)
    end.

(** ** class DynamicRateLimiter *)

(** [__init__(self, rps, capacity)]: the bucket starts full. *)
Definition DynamicRateLimiter_init (rps : Q) (capacity : Z) : M DynamicRateLimiter :=
  t <- now ;;
  ret {| rate := rps; capacity := capacity; tokens := inject_Z capacity; ts := t |}.

(** [set_rate(self, rps)]: [self.rate = max(0.001, float(rps))]. *)
Definition set_rate (rps : Q) : M unit :=
  modify (λ w,
    let self := limiter w in
    set_limiter {| rate := py_max (1 # 1000) rps; capacity := capacity self;
                   tokens := tokens self; ts := ts self |} w).

(** The refill of [acquire]:
    [min(self.capacity, self.tokens + (now - self.ts) * self.rate)]. *)
Definition refill (t : Q) (self : DynamicRateLimiter) : Q :=
  py_min (inject_Z (capacity self)) (tokens self + (t - ts self) * rate self).

(** [acquire(self, n)]: each unit of fuel is one turn of the [while True]
    loop, that is one critical section and, when the tokens do not suffice,
    one jittered sleep. *)
Fixpoint acquire (fuel : nat) (n : Z) : M unit :=
  match fuel with
  | O => timeout
  | S fuel' =>
      t <- now ;;
      self <- get limiter ;;
      let tokens' := refill t self in
      if Qlt_le_dec tokens' (inject_Z n)
      then
        modify (set_limiter {| rate := rate self; capacity := capacity self;
                               tokens := tokens'; ts := t |}) ;;
        r <- random ;;
        sleep AcquirePoll ((1 # 100) + r * (2 # 100)) ;;
        acquire fuel' n
      else
        modify (set_limiter {| rate := rate self; capacity := capacity self;
                               tokens := tokens' - inject_Z n; ts := t |})
  end.

(** ** class CircuitBreaker *)

(** [__init__(self, fail_threshold, reset_after)]. *)
Definition CircuitBreaker_init (fail_threshold : Z) (reset_after : Q) : CircuitBreaker :=
  {| fail_threshold := fail_threshold; reset_after := reset_after;
     fail_count := 0; open_until := 0 |}.

(** [before(self)]. *)
Definition before : M unit :=
  t <- now ;;
  self <- get breaker ;;
  if Qlt_le_dec t (open_until self)
  then raise (RuntimeError "circuit-open")
  else ret tt.

(** [success(self)]. *)
Definition success : M unit :=
  modify (λ w,
    let self := breaker w in
    set_breaker {| fail_threshold := fail_threshold self; reset_after := reset_after self;
                   fail_count := 0; open_until := open_until self |} w).

(** [failure(self)]: the clock is read only when the threshold is reached. *)
Definition failure : M unit :=
  self <- get breaker ;;
  let c := (fail_count self + 1)%Z in
  if (fail_threshold self <=? c)%Z
  then
    t <- now ;;
    modify (set_breaker {| fail_threshold := fail_threshold self;
                           reset_after := reset_after self;
                           fail_count := 0;
                           open_until := t + reset_after self |})
  else
    modify (set_breaker {| fail_threshold := fail_threshold self;
                           reset_after := reset_after self;
                           fail_count := c;
                           open_until := open_until self |}).

(** ** The dead-letter queue *)

(** [dead_letter = deque(maxlen=10000)]. *)
Definition dead_letter_init : deque entry := Deque (Z.to_nat 10000) [].

(** [dead_letter.append(e)]. *)
Definition dead_letter_append (e : entry) : M unit :=
  modify (λ w, set_dead_letter (deque_append e (dead_letter w)) w).

(** ** The decorator [resilient] *)

(** The statuses that are retried. *)
Definition retryable_status (s : Z) : bool :=
  bool_decide (s ∈ [429; 500; 502; 503; 504]%Z).

(** The error the loop raises for itself on a retryable status. *)
Definition retryable_error : exn := RuntimeError "retryable".

(** A bare [raise] with no exception being handled: the wrapper is taken to
    be called outside of any [except] block of its caller. *)
Definition no_active_exception : exn := RuntimeError "No active exception to reraise".

(** Truth value of a string: non-empty. *)
Definition truthy (s : string) : bool :=
  match s with EmptyString => false | _ => true end.

(** [new_rps = resp.get('headers', {}).get('X-Rate-Limit-RPS')] and
    [if new_rps: rate.set_rate(float(new_rps))]. *)
Definition adjust_rate (resp : response) : M unit :=
  let new_rps := default ∅ (headers resp) !! "X-Rate-Limit-RPS" in
  match new_rps with
  | Some s => if truthy s then (r <- py_float s ;; set_rate r) else ret tt
  | None => ret tt
  end.

(** First half of the [try] block: breaker gate, token, call, and the
    rate header. *)
Definition request (a : list pyobj) (k : list (string * pyobj)) (fuel : nat) : M response :=
  before ;;
  acquire fuel 1 ;;
  resp <- call_fn a k ;;
  adjust_rate resp ;;
  ret resp.

(** Second half of the [try] block: what the status leads to.  It always
    ends in [return] or in a raise. *)
Definition classify (a : list pyobj) (k : list (string * pyobj)) (resp : response) : M pyobj :=
  if (default 200 (status resp) =? 200)%Z
  then
    success ;;
    match data resp with
    | Some d => ret d
    | None => raise (KeyError "data")
    end
  else
    match status resp with
    | None => raise (KeyError "status")
    | Some s =>
        if retryable_status s
        then raise retryable_error
        else
          dead_letter_append {| args := a; kw := k; reason := "status-" +:+ str_int s |} ;;
          raise no_active_exception
    end.

Definition attempt (a : list pyobj) (k : list (string * pyobj)) (fuel : nat) : M pyobj :=
  resp <- request a k fuel ;;
  classify a k resp.

(** The delay slept after failed attempt [k] with jitter draw [u]:
    [base_backoff * (2**(k-1)) * (0.9 + 0.2*u)]. *)
Definition backoff (base_backoff : Q) (k : nat) (u : Q) : Q :=
  base_backoff * inject_Z (2 ^ Z.of_nat (k - 1)) * ((9 # 10) + (2 # 10) * u).

(** [for k in ks:] with the [try]/[except] as its body; running off the end
    of the loop returns [None]. *)
Fixpoint retry_loop (max_attempts : nat) (base_backoff : Q)
    (a : list pyobj) (kws : list (string * pyobj)) (fuel : nat) (ks : list nat) : M pyobj :=
  match ks with
  | [] => ret PyNone
  | k :: ks' =>
      r <- catch (attempt a kws fuel) ;;
      match r with
      | inr v => ret v
      | inl e =>
          failure ;;
          if negb (contains "retryable" (exn_str e)) || (k =? max_attempts)%nat
          then
            dead_letter_append {| args := a; kw := kws; reason := exn_str e |} ;;
            raise e
          else
            u <- random ;;
            sleep Backoff (backoff base_backoff k u) ;;
            retry_loop max_attempts base_backoff a kws fuel ks'
      end
  end.

(** The inner function [wrapper] of [resilient(rate, breaker, max_attempts,
    base_backoff)(fn)], called on [a] and [kws]: the loop over
    [range(1, max_attempts+1)]. *)
Definition wrapper (max_attempts : nat) (base_backoff : Q)
    (a : list pyobj) (kws : list (string * pyobj)) (fuel : nat) : M pyobj :=
  retry_loop max_attempts base_backoff a kws fuel (seq 1 max_attempts).

(** ** The demo of the module and concrete environments *)

(** [float] on plain decimal digit strings, enough for the headers of the
    demo; anything else is the [ValueError] of the builtin. *)
Definition float_digits (s : string) : Q + exn :=
  match NilZero.uint_of_string s with
  | Some u => inl (inject_Z (Z.of_uint u))
  | None => inr (ValueError ("could not convert string to float: '" +:+ s +:+ "'"))
  end.

(** A clock that advances by one second at each reading. *)
Definition clock_seconds (i : nat) : Q := inject_Z (Z.of_nat i).

(** [fetch_pushshift]: every 20th call answers 429 and advertises 10 rps. *)
Definition fetch_pushshift (i : nat) (a : list pyobj) (k : list (string * pyobj)) : outcome :=
  if (S i mod 20 =? 0)%nat
  then Returns {| status := Some 429%Z;
                  headers := Some (<["X-Rate-Limit-RPS" := "10"]> ∅);
                  data := Some PyNone |}
  else Returns {| status := Some 200%Z; headers := Some ∅;
                  data := Some (PyInt 100) |}.

(** A function that always answers with status [s], no header, data [None]. *)
Definition always_status (s : Z) (i : nat) (a : list pyobj) (k : list (string * pyobj)) : outcome :=
  Returns {| status := Some s; headers := Some ∅; data := Some PyNone |}.

Definition env_of (f : nat → list pyobj → list (string * pyobj) → outcome) : env :=
  {| time_time := clock_seconds; random_random := λ _, 1 # 2;
     fn := f; float := float_digits |}.

(** [rl = DynamicRateLimiter(100.0, 200)], [cb = CircuitBreaker(5, 15)] and an
    empty [dead_letter], the clock having been read once by the limiter's
    constructor. *)
Definition demo_world : world :=
  {| limiter := {| rate := 100; capacity := 200; tokens := 200; ts := 0 |};
     breaker := CircuitBreaker_init 5 15;
     dead_letter := dead_letter_init;
     clock_reads := 1; random_draws := 0; fn_calls := 0; sleeps := [] |}.

(** ** Derived notions used by the statements *)

(** Appending the items [xs], oldest first. *)
Definition record_all {A} (xs : list A) (d : deque A) : deque A :=
  foldl (λ d x, deque_append x d) d xs.

(** [n] calls of a method in a row. *)
Fixpoint repeat_m (n : nat) (m : M unit) : M unit :=
  match n with
  | O => ret tt
  | S n' => m ;; repeat_m n' m
  end.

(** The operations a client performs on the limiter. *)
Inductive limiter_op :=
| OpSetRate (rps : Q)
| OpAcquire (fuel : nat) (n : Z).

Definition run_op (op : limiter_op) : M unit :=
  match op with
  | OpSetRate rps => set_rate rps
  | OpAcquire fuel n => acquire fuel n
  end.

(** The world after a sequence of operations; the limiter object outlives
    whatever an operation raised. *)
Fixpoint run_ops (ops : list limiter_op) (E : env) (w : world) : world :=
  match ops with
  | [] => w
  | op :: ops' => run_ops ops' E (snd (run_op op E w))
  end.

Definition acquires_at_least_one (op : limiter_op) : Prop :=
  match op with
  | OpSetRate _ => True
  | OpAcquire _ n => (1 ≤ n)%Z
  end.

(** The clock never goes backwards. *)
Definition monotone_clock (E : env) : Prop :=
  ∀ i j, (i ≤ j)%nat → (time_time E i <= time_time E j)%Q.

(** [random.random()] is in [[0, 1)]. *)
Definition unit_random (E : env) : Prop :=
  ∀ i, (0 <= random_random E i)%Q ∧ (random_random E i < 1)%Q.

(** The bucket as the spec's data model has it: tokens within
    [[0, capacity]], a rate that is not negative, and a refill stamp that is
    not in the future. *)
Definition bucket_ok (E : env) (w : world) : Prop :=
  (0 <= tokens (limiter w))%Q ∧
  (tokens (limiter w) <= inject_Z (capacity (limiter w)))%Q ∧
  (0 <= rate (limiter w))%Q ∧
  (ts (limiter w) <= time_time E (clock_reads w))%Q.

(** Only the pauses of the retry loop. *)
Definition backoffs (l : list (sleep_site * Q)) : list Q :=
  omap (λ p, match p.1 with Backoff => Some p.2 | AcquirePoll => None end) l.

(** The rate header of a response is absent, empty, or a number. *)
Definition rate_header_ok (E : env) (resp : response) : Prop :=
  match default ∅ (headers resp) !! "X-Rate-Limit-RPS" with
  | Some s => truthy s = true → ∃ q, float E s = inl q
  | None => True
  end.

(** The breaker after [failure()] in world [w]. *)
Definition counted (b : CircuitBreaker) : CircuitBreaker :=
  {| fail_threshold := fail_threshold b; reset_after := reset_after b;
     fail_count := fail_count b + 1; open_until := open_until b |}.

Definition opened (t : Q) (b : CircuitBreaker) : CircuitBreaker :=
  {| fail_threshold := fail_threshold b; reset_after := reset_after b;
     fail_count := 0; open_until := t + reset_after b |}.

(** The world that [failure()] leaves. *)
Definition after_failure (E : env) (w : world) : world := snd (failure E w).

(** What the methods of limiter and breaker leave alone: the count of calls
    of the wrapped function, the dead-letter queue, the pauses of the retry
    loop and the draws of the jitter up to those of [acquire]. *)
Definition frame (w w' : world) : Prop :=
  fn_calls w' = fn_calls w ∧
  dead_letter w' = dead_letter w ∧
  backoffs (sleeps w') = backoffs (sleeps w).

(** A draw of [random.random()]. *)
Definition unit_draw (u : Q) : Prop := (0 <= u)%Q ∧ (u < 1)%Q.


(** The wrapped function answered with a status of the retryable set, and a
    rate header (if any) that [float] accepts. *)
Definition retryable_response (E : env) (o : outcome) : Prop :=
  match o with
  | Returns resp =>
      (∃ st, status resp = Some st ∧ retryable_status st = true)
      ∧ rate_header_ok E resp
  | Raises _ => False
  end.

(** Between the worlds [w] and [w'] the wrapped function was called [n]
    times, and each of these calls gave a retryable status. *)
Definition every_attempt_retryable (E : env) (a : list pyobj)
    (kws : list (string * pyobj)) (n : nat) (w w' : world) : Prop :=
  fn_calls w' = (fn_calls w + n)%nat ∧
  ∀ i, (i < n)%nat → retryable_response E (fn E (fn_calls w + i)%nat a kws).

(** The spec's reading of exhaustion: when every attempt gave a retryable
    status, what reaches the caller is an error of its own, not the
    retryable error of the loop. *)
Definition exhaustion_has_its_own_error : Prop :=
  ∀ E max_attempts base_backoff a kws fuel w,
    (1 ≤ max_attempts)%nat →
    let r := wrapper max_attempts base_backoff a kws fuel E w in
    every_attempt_retryable E a kws max_attempts w (snd r) →
    ∃ e, fst r = Raise e ∧ e ≠ retryable_error.

(** The spec's reading of the dead-letter policy: a call that ends in an
    exception has put exactly one entry on the queue. *)
Definition one_dead_letter_per_failure : Prop :=
  ∀ E max_attempts base_backoff a kws fuel w e,
    let r := wrapper max_attempts base_backoff a kws fuel E w in
    fst r = Raise e →
    ∃ x, dead_letter (snd r) = deque_append x (dead_letter w).

(** The spec's reading of the token invariant: on a limiter as the
    constructor builds it, whatever rate it is given and whatever the clock
    shows, the tokens stay within [[0, capacity]] over every sequence of
    [set_rate] calls and of [acquire(n)] calls with [n >= 1]. *)
Definition tokens_always_within_capacity : Prop :=
  ∀ E rps cap ops w l w1,
    (0 ≤ cap)%Z →
    Forall acquires_at_least_one ops →
    DynamicRateLimiter_init rps cap E w = (Ret l, w1) →
    let l' := limiter (run_ops ops E (set_limiter l w1)) in
    (0 <= tokens l')%Q ∧ (tokens l' <= inject_Z (capacity l'))%Q.

(** ** Concrete runs *)

(** A function that always answers 429 and advertises 10 rps. *)
Definition always_throttled (i : nat) (a : list pyobj) (k : list (string * pyobj)) : outcome :=
  Returns {| status := Some 429%Z;
             headers := Some (<["X-Rate-Limit-RPS" := "10"]> ∅);
             data := Some PyNone |}.

(** A response without a ['status'] key. *)
Definition resp_no_status : response :=
  {| status := None; headers := None; data := Some (PyInt 7) |}.

Definition answers_without_status (i : nat) (a : list pyobj) (k : list (string * pyobj)) : outcome :=
  Returns resp_no_status.

(** The demo world with the breaker open until second 100. *)
Definition open_world : world :=
  set_breaker {| fail_threshold := 5; reset_after := 15; fail_count := 0;
                 open_until := 100 |} demo_world.

(** The arguments of the calls below: [fetch_pushshift(1)]. *)
Definition demo_args : list pyobj := [PyInt 1].

(** Operations on the limiter of the demo: a call, a new rate, a call for
    more tokens than the bucket can ever hold, a call. *)
Definition demo_ops : list limiter_op :=
  [OpAcquire 3 1; OpSetRate 10; OpAcquire 3 250; OpAcquire 3 1].

(** [n] calls of the wrapped function in a row, by a caller that catches
    what they raise. *)
Fixpoint calls (n : nat) (m : M pyobj) : M unit :=
  match n with
  | O => ret tt
  | S n' => _ <- catch m ;; calls n' m
  end.

(** A clock that shows seconds 0 to 4 at its first readings and is past
    second 200 afterwards. *)
Definition clock_jump (i : nat) : Q :=
  if (i <=? 4)%nat then inject_Z (Z.of_nat i) else inject_Z (200 + Z.of_nat i).

Definition env_jump : env :=
  {| time_time := clock_jump; random_random := λ _, 1 # 2;
     fn := always_status 500; float := float_digits |}.

(** ** Further notions for the properties of the methods *)

(** The operations a client performs on the breaker. *)
Inductive breaker_op :=
| OpBefore
| OpSuccess
| OpFailure.

Definition run_breaker_op (op : breaker_op) : M unit :=
  match op with
  | OpBefore => before
  | OpSuccess => success
  | OpFailure => failure
  end.

(** The world after a sequence of breaker operations; the breaker outlives
    the rejections of [before]. *)
Fixpoint run_breaker_ops (ops : list breaker_op) (E : env) (w : world) : world :=
  match ops with
  | [] => w
  | op :: ops' => run_breaker_ops ops' E (snd (run_breaker_op op E w))
  end.

(** The counter of the breaker is below its threshold. *)
Definition count_in_range (b : CircuitBreaker) : Prop :=
  (0 ≤ fail_count b)%Z ∧ (fail_count b < fail_threshold b)%Z.

(** ** The wrapper in any calling context *)

(** The definitions so far take the wrapper to be called outside of any
    [except] block and every error to be an instance of [Exception].  The
    ones below drop both assumptions. *)

(** What the caller's side contributes: the exception the caller is
    handling when it calls the wrapper from an [except] block, if it does,
    and which exceptions are instances of [Exception] (as opposed to
    [KeyboardInterrupt], [SystemExit] and other classes that derive from
    [BaseException] only). *)
Record context := {
  handled : option exn;
  is_Exception : exn → bool
}.

(** A bare [raise]: it re-raises the exception being handled, and is a
    [RuntimeError] of its own when there is none. *)
Definition bare_raise (C : context) : exn :=
  match handled C with
  | Some e => e
  | None => no_active_exception
  end.

(** [try: m / except Exception as e:]: an exception that is not an instance
    of [Exception] is not caught. *)
Definition catch_Exception (C : context) {A} (m : M A) : M (exn + A) :=
  λ E w,
    match m E w with
    | (Ret a, w') => (Ret (inr a), w')
    | (Raise e, w') =>
        if is_Exception C e then (Ret (inl e), w') else (Raise e, w')
    | (Timeout, w') => (Timeout, w')
    end.

(** The entry the loop puts on the queue before its bare [raise]. *)
Definition status_entry (a : list pyobj) (k : list (string * pyobj)) (s : Z) : entry :=
  {| args := a; kw := k; reason := "status-" +:+ str_int s |}.

(** Second half of the [try] block, the bare [raise] being that of the
    context. *)
Definition classify_in (C : context) (a : list pyobj) (k : list (string * pyobj))
    (resp : response) : M pyobj :=
  if (default 200 (status resp) =? 200)%Z
  then
    success ;;
    match data resp with
    | Some d => ret d
    | None => raise (KeyError "data")
    end
  else
    match status resp with
    | None => raise (KeyError "status")
    | Some s =>
        if retryable_status s
        then raise retryable_error
        else
          dead_letter_append (status_entry a k s) ;;
          raise (bare_raise C)
    end.

Definition attempt_in (C : context) (a : list pyobj) (k : list (string * pyobj))
    (fuel : nat) : M pyobj :=
  resp <- request a k fuel ;;
  classify_in C a k resp.

(** The loop of the wrapper with its [except Exception]. *)
Fixpoint retry_loop_in (C : context) (max_attempts : nat) (base_backoff : Q)
    (a : list pyobj) (kws : list (string * pyobj)) (fuel : nat) (ks : list nat) : M pyobj :=
  match ks with
  | [] => ret PyNone
  | k :: ks' =>
      r <- catch_Exception C (attempt_in C a kws fuel) ;;
      match r with
      | inr v => ret v
      | inl e =>
          failure ;;
          if negb (contains "retryable" (exn_str e)) || (k =? max_attempts)%nat
          then
            dead_letter_append {| args := a; kw := kws; reason := exn_str e |} ;;
            raise e
          else
            u <- random ;;
            sleep Backoff (backoff base_backoff k u) ;;
            retry_loop_in C max_attempts base_backoff a kws fuel ks'
      end
  end.

(** The wrapper called in context [C]. *)
Definition wrapper_in (C : context) (max_attempts : nat) (base_backoff : Q)
    (a : list pyobj) (kws : list (string * pyobj)) (fuel : nat) : M pyobj :=
  retry_loop_in C max_attempts base_backoff a kws fuel (seq 1 max_attempts).

(** The bare [raise] of the context is one that the loop retries: the
    caller is handling an instance of [Exception] whose message contains
    [retryable]. *)
Definition retries_bare (C : context) : bool :=
  is_Exception C (bare_raise C) && contains "retryable" (exn_str (bare_raise C)).

(** A status that the loop neither takes for a success nor retries. *)
Definition terminal_status (s : Z) : Prop :=
  s ≠ 200%Z ∧ retryable_status s = false.

(** Whatever the wrapped function and [float] raise is an instance of
    [Exception], and so are the errors the module raises itself. *)
Definition only_Exceptions (C : context) (E : env) : Prop :=
  (∀ i a k e, fn E i a k = Raises e → is_Exception C e = true)
  ∧ (∀ s e, float E s = inr e → is_Exception C e = true)
  ∧ (∀ e, exn_type e ∈ ["RuntimeError"; "ValueError"; "KeyError"] →
          is_Exception C e = true).

(** The classes of Python's own that derive from [BaseException] only. *)
Definition builtin_is_Exception (e : exn) : bool :=
  negb (bool_decide (exn_type e ∈ ["BaseException"; "KeyboardInterrupt";
                                   "SystemExit"; "GeneratorExit"])).

(** A call outside of any [except] block. *)
Definition top_level : context :=
  {| handled := None; is_Exception := builtin_is_Exception |}.

(** A call from an [except] block that is handling [e]. *)
Definition handling (e : exn) : context :=
  {| handled := Some e; is_Exception := builtin_is_Exception |}.

(** ** The script of the module *)

(** The wrapped function answers as [fetch_pushshift] does: the call that
    makes its counter [c] a multiple of 20 gets status 429 and the header
    ['X-Rate-Limit-RPS': '10'], every other call status 200, no header and
    some payload.  The counter is the number of calls made so far. *)
Definition answers_like_fetch_pushshift (E : env) : Prop :=
  ∀ i a k,
    if (S i mod 20 =? 0)%nat
    then fn E i a k =
           Returns {| status := Some 429%Z;
                      headers := Some (<["X-Rate-Limit-RPS" := "10"]> ∅);
                      data := Some PyNone |}
    else ∃ d, fn E i a k =
           Returns {| status := Some 200%Z; headers := Some ∅; data := Some d |}.

(** The statements run at import: [dead_letter = deque(maxlen=10000)],
    [rl = DynamicRateLimiter(100.0, 200)] and [cb = CircuitBreaker(5, 15)]. *)
Definition module_init : M unit :=
  modify (set_dead_letter dead_letter_init) ;;
  rl <- DynamicRateLimiter_init 100 200 ;;
  modify (set_limiter rl) ;;
  modify (set_breaker (CircuitBreaker_init 5 15)).

(** The loop of [__main__] over the indices [ixs]: a call that returns adds
    one to [ok], an exception is printed as [ERR: <message>].  [params i]
    is the argument of the [i]-th call, the dictionary with [q] set to [i];
    [out] is what has been printed so far. *)
Fixpoint main_loop (params : nat → pyobj) (fuel : nat) (ixs : list nat)
    (ok : Z) (out : list string) : M (Z * list string) :=
  match ixs with
  | [] => ret (ok, out)
  | i :: ixs' =>
      r <- catch (wrapper 6 (3 # 10) [params i] [] fuel) ;;
      match r with
      | inr _ => main_loop params fuel ixs' (ok + 1)%Z out
      | inl e => main_loop params fuel ixs' ok (out ++ ["ERR: " +:+ exn_str e])
      end
  end.

(** The body of [if __name__ == "__main__":]: the lines it prints. *)
Definition main (params : nat → pyobj) (fuel : nat) : M (list string) :=
  r <- main_loop params fuel (seq 0 60) 0 [] ;;
  d <- get dead_letter ;;
  ret (snd r ++ ["success: " +:+ str_int (fst r) +:+ " dead_letter: "
                   +:+ str_int (Z.of_nat (deque_len d))]).

(** The module run as a script. *)
Definition script (params : nat → pyobj) (fuel : nat) : M (list string) :=
  module_init ;; main params fuel.

(** The number of calls of the wrapped function after one more call of the
    decorated [fetch_pushshift], [c] calls having been made before: the
    20th, 40th, ... call is answered 429 and followed by a retry. *)
Definition calls_after (c : nat) : nat :=
  if (S c mod 20 =? 0)%nat then S (S c) else S c.

(** The state between two calls of the demo: the bucket is sound and holds
    at least [budget] tokens, the rate is 100 until the 20th call of the
    wrapped function and 10 from then on, the breaker is closed with its
    counter at 0, and no dead letter has been written. *)
Definition demo_state (E : env) (budget : Z) (w : world) : Prop :=
  bucket_ok E w
  ∧ (inject_Z budget <= tokens (limiter w))%Q
  ∧ rate (limiter w) = (if (20 <=? fn_calls w)%nat then 10 else 100)%Q
  ∧ breaker w = CircuitBreaker_init 5 15
  ∧ dead_letter w = dead_letter_init.

(** ** Further concrete runs *)

(** The limiter of the demo, drained and with rate 0, as
    [DynamicRateLimiter(0, 200)] is after 200 tokens have been taken. *)
Definition drained_world : world :=
  set_limiter {| rate := 0; capacity := 200; tokens := 0; ts := 0 |} demo_world.

(** The breaker of the demo one failure away from opening. *)
Definition nearly_open_world : world :=
  set_breaker {| fail_threshold := 5; reset_after := 15; fail_count := 4;
                 open_until := 0 |} demo_world.

(** A function that always raises [e]. *)
Definition always_raises (e : exn) (i : nat) (a : list pyobj) (k : list (string * pyobj)) : outcome :=
  Raises e.

(** A function that always returns [r]. *)
Definition always_returns (r : response) (i : nat) (a : list pyobj) (k : list (string * pyobj)) : outcome :=
  Returns r.

(** A response with status 200 and no ['data'] key. *)
Definition resp_no_data : response :=
  {| status := Some 200%Z; headers := Some ∅; data := None |}.

(** A response with status 200 whose rate header is not a number. *)
Definition resp_bad_header : response :=
  {| status := Some 200%Z;
     headers := Some (<["X-Rate-Limit-RPS" := "fast"]> ∅);
     data := Some (PyInt 7) |}.

(** The arguments of the calls of [__main__], by their index. *)
Definition demo_params (i : nat) : pyobj := PyInt (Z.of_nat i).

(** A sequence of operations on the breaker. *)
Definition demo_breaker_ops : list breaker_op :=
  [OpFailure; OpFailure; OpBefore; OpSuccess; OpFailure; OpFailure; OpFailure;
   OpFailure; OpFailure; OpBefore; OpFailure].

(** The environment of a call so short that the clock does not move. *)
Definition env_still (f : nat → list pyobj → list (string * pyobj) → outcome) : env :=
  {| time_time := λ _, 0%Q; random_random := λ _, 1 # 2;
     fn := f; float := float_digits |}.

(** A function that answers 404 to its first call and 200 afterwards. *)
Definition not_found_then_ok (i : nat) (a : list pyobj) (k : list (string * pyobj)) : outcome :=
  if (i =? 0)%nat
  then Returns {| status := Some 404%Z; headers := Some ∅; data := Some PyNone |}
  else Returns {| status := Some 200%Z; headers := Some ∅; data := Some (PyInt 7) |}.

(** * The dead-letter deque *)

Section Deque.
Context {A : Type}.
Implicit Types (d : deque A) (xs : list A) (x : A).

Lemma deque_append_maxlen x d : maxlen (deque_append x d) = maxlen d.
Proof. reflexivity. Qed.

Lemma record_all_maxlen xs d : maxlen (record_all xs d) = maxlen d.
Proof.
  revert d; induction xs as [|x xs IH]; intros d; [done|].
  change (record_all (x :: xs) d) with (record_all xs (deque_append x d)).
  by rewrite IH.
Qed.

Lemma deque_append_items x d :
  length (items d) ≤ maxlen d →
  items (deque_append x d) =
    drop (length (items d ++ [x]) - maxlen d) (items d ++ [x]).
Proof.
  intros Hle. unfold deque_append; simpl.
  rewrite length_app; simpl.
  destruct (Nat.ltb_spec (maxlen d) (length (items d) + 1)) as [Hlt|Hge].
  - replace (length (items d) + 1 - maxlen d) with 1 by lia. done.
  - replace (length (items d) + 1 - maxlen d) with 0 by lia. done.
Qed.

Lemma deque_append_bounded x d :
  length (items d) ≤ maxlen d → length (items (deque_append x d)) ≤ maxlen d.
Proof.
  intros Hle. rewrite deque_append_items by done.
  rewrite length_drop, length_app; simpl. lia.
Qed.

Lemma record_all_items xs d :
  length (items d) ≤ maxlen d →
  items (record_all xs d) =
    drop (length (items d ++ xs) - maxlen d) (items d ++ xs).
Proof.
  revert d; induction xs as [|x xs IH]; intros d Hle; simpl.
  - rewrite app_nil_r. replace (length (items d) - maxlen d) with 0 by lia. done.
  - change (record_all (x :: xs) d) with (record_all xs (deque_append x d)).
    rewrite (IH (deque_append x d)) by exact (deque_append_bounded x d Hle).
    rewrite deque_append_maxlen, deque_append_items by done.
    set (m := items d ++ [x]).
    assert (Hm : length m = S (length (items d)))
      by (unfold m; rewrite length_app; simpl; lia).
    replace (items d ++ x :: xs) with (m ++ xs)
      by (unfold m; by rewrite <- app_assoc).
    set (k := length m - maxlen d).
    assert (Hk : k ≤ length m) by (unfold k; lia).
    replace (drop k m ++ xs) with (drop k (m ++ xs))
      by (rewrite drop_app_le by done; done).
    rewrite drop_drop. f_equal.
    rewrite length_drop, !length_app. unfold k. lia.
Qed.

(** C6.  However many entries are recorded, the deque never holds more than
    [maxlen] of them.  A record on a full deque drops the oldest entry and
    puts the new one last; the newest entry is always kept; and after
    [maxlen + 1] records on an empty deque all but the first remain, in the
    order of insertion.  ([maxlen] is 10000 in the module; Python's
    [deque(maxlen=0)] keeps nothing, hence [0 < maxlen].) *)
Theorem deque_bounded_fifo d xs x :
  0 < maxlen d →
  length (items d) ≤ maxlen d →
  deque_len (record_all xs d) ≤ maxlen d
  ∧ (deque_len d = maxlen d →
       items (deque_append x d) = drop 1 (items d) ++ [x])
  ∧ last (items (deque_append x d)) = Some x
  ∧ (items d = [] → length xs = S (maxlen d) →
       items (record_all xs d) = drop 1 xs).
Proof.
  intros Hpos Hle. unfold deque_len. repeat split.
  - rewrite record_all_items by done.
    rewrite length_drop. lia.
  - intros Hfull. rewrite deque_append_items by done.
    rewrite length_app; simpl.
    replace (length (items d) + 1 - maxlen d) with 1 by lia.
    rewrite drop_app_le; [done|]. lia.
  - unfold deque_append; simpl.
    destruct (Nat.ltb_spec (maxlen d) (length (items d ++ [x]))) as [Hlt|Hge];
      [|by rewrite last_snoc].
    destruct (items d) as [|y l]; simpl in *; [lia|].
    rewrite drop_0. by rewrite last_snoc.
  - intros Hnil Hlen. rewrite record_all_items by done.
    rewrite Hnil; simpl. rewrite Hlen.
    replace (S (maxlen d) - maxlen d) with 1 by lia. done.
Qed.
Lemma record_all_bounded xs d :
  length (items d) ≤ maxlen d →
  length (items (record_all xs d)) ≤ maxlen d
  ∧ length (items (record_all xs d)) ≤ length (items d) + length xs.
Proof.
  intros Hle. rewrite record_all_items by done.
  rewrite length_drop, length_app. lia.
Qed.

End Deque.

(** * CircuitBreaker *)

Section Breaker.
Variable E : env.
Implicit Types (w : world).

Lemma failure_below w :
  (fail_count (breaker w) + 1 < fail_threshold (breaker w))%Z →
  failure E w = (Ret tt, set_breaker (counted (breaker w)) w).
Proof.
  intros H. unfold failure, bind, get, modify; simpl.
  destruct (Z.leb_spec (fail_threshold (breaker w)) (fail_count (breaker w) + 1));
    [lia|done].
Qed.

Lemma failure_reaches w :
  (fail_threshold (breaker w) ≤ fail_count (breaker w) + 1)%Z →
  failure E w =
    (Ret tt, set_breaker (opened (time_time E (clock_reads w)) (breaker w))
                         (tick_clock w)).
Proof.
  intros H. unfold failure, bind, get, modify, now; simpl.
  destruct (Z.leb_spec (fail_threshold (breaker w)) (fail_count (breaker w) + 1));
    [done|lia].
Qed.

Lemma set_breaker_same w : set_breaker (breaker w) w = w.
Proof. by destruct w. Qed.

Lemma failures_accumulate (j : nat) w :
  (fail_count (breaker w) + Z.of_nat j < fail_threshold (breaker w))%Z →
  repeat_m j failure E w =
    (Ret tt,
     set_breaker {| fail_threshold := fail_threshold (breaker w);
                    reset_after := reset_after (breaker w);
                    fail_count := fail_count (breaker w) + Z.of_nat j;
                    open_until := open_until (breaker w) |} w).
Proof.
  revert w. induction j as [|j IH]; intros w Hj.
  - replace (fail_count (breaker w) + Z.of_nat 0)%Z
      with (fail_count (breaker w)) by lia.
    by destruct w as [l [] ].
  - cbn [repeat_m]. unfold bind.
    rewrite failure_below by lia.
    rewrite IH by (simpl; lia).
    unfold counted, set_breaker; simpl.
    replace (fail_count (breaker w) + 1 + Z.of_nat j)%Z
      with (fail_count (breaker w) + Z.of_nat (S j))%Z by lia.
    done.
Qed.
Lemma failures_reach (j : nat) w :
  (fail_count (breaker w) + Z.of_nat (S j) = fail_threshold (breaker w))%Z →
  repeat_m (S j) failure E w =
    (Ret tt, set_breaker (opened (time_time E (clock_reads w)) (breaker w))
                         (tick_clock w)).
Proof.
  revert w. induction j as [|j IH]; intros w Hj.
  - cbn [repeat_m]. unfold bind. by rewrite failure_reaches by lia.
  - change (repeat_m (S (S j)) failure) with (failure ;; repeat_m (S j) failure).
    unfold bind. rewrite failure_below by lia.
    rewrite IH by (simpl; lia).
    reflexivity.
Qed.

(** C7, as amended.  A call of [failure()] below the threshold adds one
    to [fail_count] and nothing else.  The call that reaches the threshold
    sets [open_until] to the clock plus [reset_after] and puts [fail_count]
    back to 0.  From a count of 0, fewer than [fail_threshold] calls of
    [failure()] leave [open_until] alone, and exactly [fail_threshold] of
    them set it anew: a full threshold of failures counted from the opening,
    wherever the clock stands, is needed to open the breaker again. *)
Theorem failure_counts_then_opens w :
  let b := breaker w in
  ((fail_count b + 1 < fail_threshold b)%Z →
     failure E w = (Ret tt, set_breaker (counted b) w))
  ∧ ((fail_threshold b ≤ fail_count b + 1)%Z →
     failure E w =
       (Ret tt, set_breaker (opened (time_time E (clock_reads w)) b) (tick_clock w)))
  ∧ (fail_count b = 0%Z →
     ∀ j : nat, (Z.of_nat j < fail_threshold b)%Z →
       repeat_m j failure E w =
         (Ret tt,
          set_breaker {| fail_threshold := fail_threshold b;
                         reset_after := reset_after b;
                         fail_count := Z.of_nat j;
                         open_until := open_until b |} w))
  ∧ (fail_count b = 0%Z → (1 ≤ fail_threshold b)%Z →
       repeat_m (Z.to_nat (fail_threshold b)) failure E w =
         (Ret tt,
          set_breaker (opened (time_time E (clock_reads w)) b) (tick_clock w))).
Proof.
  intros b. subst b. repeat split.
  - apply failure_below.
  - apply failure_reaches.
  - intros H0 j Hj. rewrite failures_accumulate by lia.
    by rewrite H0.
  - intros H0 Hpos.
    destruct (Z.to_nat (fail_threshold (breaker w))) as [|n] eqn:Hn; [lia|].
    apply failures_reach. lia.
Qed.

(** C8.  [before()] raises [RuntimeError("circuit-open")] exactly when the
    clock reads strictly less than [open_until]; otherwise it returns.  In
    both cases it only reads the clock: breaker (and so [fail_count], which
    plays no part), limiter and dead-letter queue are as before. *)
Theorem before_rejects_iff_open w :
  let t := time_time E (clock_reads w) in
  (fst (before E w) = Raise (RuntimeError "circuit-open") ↔
     (t < open_until (breaker w))%Q)
  ∧ (fst (before E w) = Ret tt ↔ ¬ (t < open_until (breaker w))%Q)
  ∧ snd (before E w) = tick_clock w
  ∧ breaker (snd (before E w)) = breaker w
  ∧ limiter (snd (before E w)) = limiter w
  ∧ dead_letter (snd (before E w)) = dead_letter w.
Proof.
  intros t. subst t. unfold before, bind, now, get, raise, ret; simpl.
  destruct (Qlt_le_dec (time_time E (clock_reads w)) (open_until (breaker w)))
    as [Hlt|Hge]; simpl; repeat split; try done.
  all: try (intros H; exfalso; first [discriminate H | by apply H]).
  all: try (intros H; exfalso; by apply (Qle_not_lt _ _ Hge)).
  all: try (intros _; by apply Qle_not_lt).
Qed.
(** ** More on the breaker *)

Lemma breaker_op_in_range op w :
  count_in_range (breaker w) →
  count_in_range (breaker (snd (run_breaker_op op E w)))
  ∧ fail_threshold (breaker (snd (run_breaker_op op E w))) = fail_threshold (breaker w)
  ∧ reset_after (breaker (snd (run_breaker_op op E w))) = reset_after (breaker w).
Proof.
  intros (H0 & Hlt). destruct op; simpl.
  - unfold before, bind, now, get, raise, ret; simpl.
    by destruct (Qlt_le_dec _ _).
  - unfold success, modify, count_in_range; simpl. repeat split; lia.
  - destruct (Z.lt_ge_cases (fail_count (breaker w) + 1) (fail_threshold (breaker w)))
      as [Hbelow|Hreach].
    + rewrite failure_below by done. unfold count_in_range; simpl.
      repeat split; lia.
    + rewrite failure_reaches by done. unfold count_in_range; simpl.
      repeat split; lia.
Qed.

(** X6.  Whatever sequence of [before()], [success()] and [failure()] is
    run on a breaker whose counter is within [[0, fail_threshold)], the
    counter stays within that range (reaching the threshold puts it back to
    0), and threshold and cooldown never change. *)
Theorem breaker_count_stays_below ops w :
  count_in_range (breaker w) →
  let b' := breaker (run_breaker_ops ops E w) in
  count_in_range b'
  ∧ fail_threshold b' = fail_threshold (breaker w)
  ∧ reset_after b' = reset_after (breaker w).
Proof.
  revert w. induction ops as [|op ops IH]; intros w Hw; [done|].
  cbn [run_breaker_ops].
  destruct (breaker_op_in_range op w Hw) as (Hr & Ht & Hc).
  destruct (IH _ Hr) as (Hr' & Ht' & Hc'). cbv zeta.
  repeat split; try apply Hr'; congruence.
Qed.

Lemma iter_tick_clock (m : nat) w :
  breaker (Nat.iter m tick_clock w) = breaker w
  ∧ clock_reads (Nat.iter m tick_clock w) = (m + clock_reads w)%nat.
Proof.
  induction m as [|m (IHb & IHc)]; [done|].
  simpl. rewrite IHb, IHc. done.
Qed.

Lemma before_eq w :
  before E w =
    (if Qlt_le_dec (time_time E (clock_reads w)) (open_until (breaker w))
     then Raise (RuntimeError "circuit-open") else Ret tt,
     tick_clock w).
Proof.
  unfold before, bind, now, get, raise, ret. cbn beta iota.
  by destruct (Qlt_le_dec _ _).
Qed.

(** X7.  After the call of [failure()] that reaches the threshold with the
    clock at [t], and any number [m] of further readings of the clock,
    [before()] rejects exactly as long as the clock reads less than
    [t + reset_after], and lets calls through from then on. *)
Theorem opened_breaker_rejects_until_cooldown (m : nat) w :
  (fail_threshold (breaker w) ≤ fail_count (breaker w) + 1)%Z →
  let t := time_time E (clock_reads w) in
  let w2 := Nat.iter m tick_clock (snd (failure E w)) in
  clock_reads w2 = (m + S (clock_reads w))%nat
  ∧ (fst (before E w2) = Raise (RuntimeError "circuit-open")
     ↔ (time_time E (clock_reads w2) < t + reset_after (breaker w))%Q)
  ∧ (fst (before E w2) = Ret tt
     ↔ (t + reset_after (breaker w) <= time_time E (clock_reads w2))%Q).
Proof.
  intros Hreach t w2. subst t w2.
  rewrite failure_reaches by done. cbn [snd].
  match goal with |- context [Nat.iter m tick_clock ?w0] =>
    destruct (iter_tick_clock m w0) as (Hb & Hc) end.
  split; [by rewrite Hc|].
  rewrite before_eq, Hb, Hc. cbn [breaker set_breaker open_until opened fst].
  destruct (Qlt_le_dec _ _) as [Hlt|Hge]; repeat split; try done.
  - intros Hge. exfalso. by apply (Qlt_not_le _ _ Hlt).
  - intros Hlt. exfalso. by apply (Qlt_not_le _ _ Hlt).
Qed.

(** X8.  [success()] returns, puts the counter back to 0 and touches
    nothing else: threshold, cooldown and [open_until] are as they were, and
    so are the limiter, the dead-letter queue, the clock, the random source,
    the calls made and the pauses logged.  An open breaker therefore stays
    open ([before()] gives the same verdict), and after it fewer than
    [fail_threshold] failures in a row leave [open_until] as it was. *)
Theorem success_resets_count_only w :
  let w' := snd (success E w) in
  fst (success E w) = Ret tt
  ∧ fail_count (breaker w') = 0%Z
  ∧ open_until (breaker w') = open_until (breaker w)
  ∧ fail_threshold (breaker w') = fail_threshold (breaker w)
  ∧ reset_after (breaker w') = reset_after (breaker w)
  ∧ limiter w' = limiter w
  ∧ dead_letter w' = dead_letter w
  ∧ clock_reads w' = clock_reads w
  ∧ random_draws w' = random_draws w
  ∧ fn_calls w' = fn_calls w
  ∧ sleeps w' = sleeps w
  ∧ fst (before E w') = fst (before E w)
  ∧ ∀ j : nat, (Z.of_nat j < fail_threshold (breaker w))%Z →
      open_until (breaker (snd (repeat_m j failure E w'))) = open_until (breaker w)
      ∧ fail_count (breaker (snd (repeat_m j failure E w'))) = Z.of_nat j.
Proof.
  intros w'. subst w'. rewrite !before_eq. unfold success, modify. cbn [fst snd].
  do 12 (split; [done|]).
  intros j Hj. by rewrite failures_accumulate by (simpl; lia).
Qed.

End Breaker.

(** * DynamicRateLimiter *)

Section Limiter.
Variable E : env.
Implicit Types (w : world) (l : DynamicRateLimiter).

Lemma py_min_le_l a b : (py_min a b <= a)%Q.
Proof. unfold py_min. destruct (Qlt_le_dec b a); lra. Qed.

Lemma py_min_glb a b c : (c <= a)%Q → (c <= b)%Q → (c <= py_min a b)%Q.
Proof. unfold py_min. destruct (Qlt_le_dec b a); lra. Qed.

Lemma py_max_ge_l a b : (a <= py_max a b)%Q.
Proof. unfold py_max. destruct (Qlt_le_dec a b); lra. Qed.

Lemma refill_le_capacity t l : (refill t l <= inject_Z (capacity l))%Q.
Proof. apply py_min_le_l. Qed.

Lemma refill_ge_tokens t l :
  (tokens l <= inject_Z (capacity l))%Q → (0 <= rate l)%Q → (ts l <= t)%Q →
  (tokens l <= refill t l)%Q.
Proof.
  intros Hcap Hrate Hts. apply py_min_glb; [done|].
  assert (0 <= (t - ts l) * rate l)%Q by (apply Qmult_le_0_compat; lra).
  lra.
Qed.

Lemma set_rate_ok rps w : bucket_ok E w → bucket_ok E (snd (set_rate rps E w)).
Proof.
  intros (H0 & Hcap & Hrate & Hts). unfold set_rate, modify, bucket_ok; simpl.
  repeat split; try done.
  pose proof (py_max_ge_l (1 # 1000) rps). lra.
Qed.

(** One turn of the [while True] loop, spelled out. *)
Lemma acquire_step fuel n w :
  acquire (S fuel) n E w =
    let t := time_time E (clock_reads w) in
    let r := refill t (limiter w) in
    let self := limiter w in
    if Qlt_le_dec r (inject_Z n)
    then
      let w1 := tick_random
                  (set_limiter {| rate := rate self; capacity := capacity self;
                                  tokens := r; ts := t |} (tick_clock w)) in
      let d := ((1 # 100) + random_random E (random_draws w) * (2 # 100))%Q in
      if Qlt_le_dec d 0
      then (Raise (ValueError "sleep length must be non-negative"), w1)
      else acquire fuel n E (log_sleep AcquirePoll d w1)
    else
      (Ret tt, set_limiter {| rate := rate self; capacity := capacity self;
                              tokens := r - inject_Z n; ts := t |} (tick_clock w)).
Proof.
  cbn [acquire]. unfold bind, now, get, modify, random, sleep, raise; simpl.
  destruct (Qlt_le_dec _ _); [|done].
  simpl. by destruct (Qlt_le_dec _ 0).
Qed.

Lemma acquire_ok fuel n w :
  monotone_clock E → (1 ≤ n)%Z → bucket_ok E w →
  bucket_ok E (snd (acquire fuel n E w)).
Proof.
  intros Hmono Hn. revert w.
  assert (Hn' : (1 <= inject_Z n)%Q)
    by (change 1%Q with (inject_Z 1); by rewrite <- Zle_Qle).
  induction fuel as [|fuel IH]; intros w Hw; [done|].
  destruct Hw as (H0 & Hcap & Hrate & Hts).
  pose proof (refill_le_capacity (time_time E (clock_reads w)) (limiter w)) as Hle.
  pose proof (refill_ge_tokens (time_time E (clock_reads w)) (limiter w)
                Hcap Hrate Hts) as Hge.
  pose proof (Hmono (clock_reads w) (S (clock_reads w)) (Nat.le_succ_diag_r _)) as Hstep.
  rewrite acquire_step. cbv zeta.
  destruct (Qlt_le_dec _ _) as [Hlt|Hok].
  - destruct (Qlt_le_dec _ 0) as [Hneg|Hpos].
    + unfold bucket_ok; simpl. repeat split; try done; lra.
    + apply IH. unfold bucket_ok; simpl. repeat split; try done; lra.
  - unfold bucket_ok; simpl. repeat split; try done; lra.
Qed.

Lemma run_ops_ok ops w :
  monotone_clock E → Forall acquires_at_least_one ops → bucket_ok E w →
  bucket_ok E (run_ops ops E w).
Proof.
  intros Hmono Hops. revert w.
  induction Hops as [|op ops Hop _ IH]; intros w Hw; [done|].
  cbn [run_ops]. apply IH.
  destruct op as [rps|fuel n]; simpl.
  - by apply set_rate_ok.
  - by apply acquire_ok.
Qed.

(** One turn of the loop of [acquire]: it returns exactly when the
    refilled bucket holds [n] tokens, and only then deducts. *)
Lemma acquire_one_turn n w :
  let r := refill (time_time E (clock_reads w)) (limiter w) in
  (fst (acquire 1 n E w) = Ret tt ↔ (inject_Z n <= r)%Q)
  ∧ tokens (limiter (snd (acquire 1 n E w))) =
      (if Qlt_le_dec r (inject_Z n) then r else r - inject_Z n)%Q.
Proof.
  intros r. subst r. rewrite acquire_step. cbv zeta.
  destruct (Qlt_le_dec _ _) as [Hlt|Hok].
  - destruct (Qlt_le_dec _ 0) as [Hneg|Hpos]; simpl; (split; [split|done]).
    all: try discriminate.
    all: intros Hle; exfalso; by apply (Qlt_not_le _ _ Hlt).
  - simpl. done.
Qed.

(** C5, as amended.  On a bucket as the data model has it (tokens within
    [[0, capacity]], rate not negative, last refill not in the future) and
    with a clock that does not go backwards, after any sequence of
    [set_rate] calls and of [acquire(n)] calls with [n >= 1], each stopped
    after any number of turns of its loop, the tokens are within
    [[0, capacity]].  The refill never exceeds
    [capacity], and one turn of [acquire] returns exactly when the refilled
    tokens are at least [n], deducting [n] only then. *)
Theorem tokens_within_capacity ops w :
  monotone_clock E →
  Forall acquires_at_least_one ops →
  bucket_ok E w →
  let l' := limiter (run_ops ops E w) in
  (0 <= tokens l')%Q ∧ (tokens l' <= inject_Z (capacity l'))%Q
  ∧ (∀ t l, (refill t l <= inject_Z (capacity l))%Q)
  ∧ (∀ n w0,
       let r := refill (time_time E (clock_reads w0)) (limiter w0) in
       (fst (acquire 1 n E w0) = Ret tt ↔ (inject_Z n <= r)%Q)
       ∧ tokens (limiter (snd (acquire 1 n E w0))) =
           (if Qlt_le_dec r (inject_Z n) then r else r - inject_Z n)%Q).
Proof.
  intros Hmono Hops Hw l'. subst l'.
  destruct (run_ops_ok ops w Hmono Hops Hw) as (H0 & Hcap & _).
  repeat split; try done.
  - apply refill_le_capacity.
  - apply acquire_one_turn.
  - apply acquire_one_turn.
  - apply acquire_one_turn.
Qed.

(** The constructor gives such a bucket. *)
Lemma init_ok rps cap w :
  monotone_clock E → (0 <= rps)%Q → (0 ≤ cap)%Z →
  ∀ l w', DynamicRateLimiter_init rps cap E w = (Ret l, w') →
  bucket_ok E (set_limiter l w').
Proof.
  intros Hmono Hrps Hcap l w' Hinit.
  unfold DynamicRateLimiter_init, bind, now, ret in Hinit.
  injection Hinit as <- <-.
  unfold bucket_ok; simpl. repeat split; try done.
  - change 0%Q with (inject_Z 0). by rewrite <- Zle_Qle.
  - lra.
  - apply Hmono. lia.
Qed.
(** ** More on the limiter *)

(** [set_rate] clamps at 0.001 and touches only the rate. *)
Lemma set_rate_clamps rps w :
  let w' := snd (set_rate rps E w) in
  fst (set_rate rps E w) = Ret tt
  ∧ ((1 # 1000) <= rate (limiter w'))%Q
  ∧ (((1 # 1000) < rps)%Q → rate (limiter w') = rps)
  ∧ ((rps <= (1 # 1000))%Q → rate (limiter w') = (1 # 1000)%Q)
  ∧ tokens (limiter w') = tokens (limiter w)
  ∧ ts (limiter w') = ts (limiter w)
  ∧ capacity (limiter w') = capacity (limiter w)
  ∧ ∀ t, refill t (limiter w') =
         py_min (inject_Z (capacity (limiter w)))
                (tokens (limiter w)
                 + (t - ts (limiter w)) * py_max (1 # 1000) rps).
Proof.
  intros w'. subst w'. unfold set_rate, modify; simpl.
  repeat split; try done.
  - apply py_max_ge_l.
  - intros Hlt. unfold py_max. destruct (Qlt_le_dec _ _) as [_|Hle]; [done|].
    exfalso. by apply (Qlt_not_le _ _ Hlt).
  - intros Hle. unfold py_max. destruct (Qlt_le_dec _ _) as [Hlt|_]; [|done].
    exfalso. by apply (Qlt_not_le _ _ Hlt).
Qed.

Lemma poll_sleep_nonneg u :
  unit_draw u → ¬ ((1 # 100) + u * (2 # 100) < 0)%Q.
Proof. intros (H0 & _) Hneg. lra. Qed.

(** X2.  A call of [acquire(n)] for more tokens than the capacity never
    returns: however many turns of the loop it is given, it is still
    polling (with draws of [random.random()] in [[0, 1)]; without that
    assumption it at least never returns). *)
Theorem acquire_above_capacity_blocks fl n w :
  (capacity (limiter w) < n)%Z →
  fst (acquire fl n E w) ≠ Ret tt
  ∧ (unit_random E → fst (acquire fl n E w) = Timeout).
Proof.
  intros Hcap.
  assert (Hq : ∀ w0, capacity (limiter w0) = capacity (limiter w) →
            ∀ t, (refill t (limiter w0) < inject_Z n)%Q).
  { intros w0 Hc t. pose proof (refill_le_capacity t (limiter w0)) as Hle.
    rewrite Hc in Hle. eapply Qle_lt_trans; [exact Hle|].
    by rewrite <- Zlt_Qlt. }
  assert (Hgen : ∀ w0, capacity (limiter w0) = capacity (limiter w) →
            fst (acquire fl n E w0) ≠ Ret tt
            ∧ (unit_random E → fst (acquire fl n E w0) = Timeout)).
  { induction fl as [|fl IH]; intros w0 Hc; [done|].
    rewrite acquire_step. cbv zeta.
    destruct (Qlt_le_dec _ _) as [_|Hok];
      [|exfalso; apply (Qlt_not_le _ _ (Hq w0 Hc (time_time E (clock_reads w0)))), Hok].
    destruct (Qlt_le_dec _ 0) as [Hneg|_].
    - split; [done|]. intros Hrand. exfalso.
      by apply (poll_sleep_nonneg _ (Hrand (random_draws w0))).
    - apply IH. simpl. done. }
  by apply Hgen.
Qed.

(** X3.  When the bucket already holds [n] tokens (and is as the data model
    has it, the clock not going backwards), [acquire(n)] returns in its
    first turn: it reads the clock once, draws no random number, does not
    sleep, and leaves the refilled tokens less [n], which is at least the
    old tokens less [n]. *)
Theorem acquire_returns_at_once fl n w :
  bucket_ok E w →
  (inject_Z n <= tokens (limiter w))%Q →
  let w' := snd (acquire (S fl) n E w) in
  fst (acquire (S fl) n E w) = Ret tt
  ∧ clock_reads w' = S (clock_reads w)
  ∧ random_draws w' = random_draws w
  ∧ sleeps w' = sleeps w
  ∧ tokens (limiter w') =
      (refill (time_time E (clock_reads w)) (limiter w) - inject_Z n)%Q
  ∧ (tokens (limiter w) - inject_Z n <= tokens (limiter w'))%Q
  ∧ ts (limiter w') = time_time E (clock_reads w).
Proof.
  intros (H0 & Hcap & Hrate & Hts) Hn w'. subst w'.
  pose proof (refill_ge_tokens (time_time E (clock_reads w)) (limiter w)
                Hcap Hrate Hts) as Hge.
  rewrite acquire_step. cbv zeta.
  destruct (Qlt_le_dec _ _) as [Hlt|_]; [exfalso; lra|].
  simpl. repeat split; try done. lra.
Qed.

(** X5.  The constructor gives a full bucket: for [rps] and [capacity] not
    negative and a clock that does not go backwards, the limiter it builds
    is as the data model has it, and a first [acquire(n)] with
    [0 <= n <= capacity] returns at once and leaves exactly
    [capacity - n] tokens. *)
Theorem init_then_acquire rps cap fl n w l w1 :
  monotone_clock E → (0 <= rps)%Q → (0 ≤ n)%Z → (n ≤ cap)%Z →
  DynamicRateLimiter_init rps cap E w = (Ret l, w1) →
  let w2 := set_limiter l w1 in
  tokens l = inject_Z cap ∧ rate l = rps ∧ capacity l = cap
  ∧ bucket_ok E w2
  ∧ fst (acquire (S fl) n E w2) = Ret tt
  ∧ tokens (limiter (snd (acquire (S fl) n E w2))) = (inject_Z cap - inject_Z n)%Q.
Proof.
  intros Hmono Hrps Hn Hcap Hinit w2.
  assert (Hok : bucket_ok E w2).
  { eapply (init_ok rps cap w); try done. lia. }
  subst w2.
  unfold DynamicRateLimiter_init, bind, now, ret in Hinit.
  injection Hinit as <- <-.
  pose proof Hok as (_ & _ & Hr & Hts); simpl in Hr, Hts.
  assert (Hle : (inject_Z n <= inject_Z cap)%Q) by (by rewrite <- Zle_Qle).
  assert (Hgain : (0 <= (time_time E (S (clock_reads w))
                         - time_time E (clock_reads w)) * rps)%Q)
    by (apply Qmult_le_0_compat; lra).
  assert (Hx : refill (time_time E (S (clock_reads w)))
             {| rate := rps; capacity := cap; tokens := inject_Z cap;
                ts := time_time E (clock_reads w) |} = inject_Z cap).
  { unfold refill, py_min; simpl. destruct (Qlt_le_dec _ _); [exfalso; lra|done]. }
  split; [done|]. split; [done|]. split; [done|].
  split; [exact Hok|].
  rewrite acquire_step. cbv zeta. cbn [limiter set_limiter clock_reads tick_clock].
  rewrite Hx.
  destruct (Qlt_le_dec _ _) as [Hlt|_]; [exfalso; lra|done].
Qed.

Lemma acquire_rate fl n w :
  rate (limiter (snd (acquire fl n E w))) = rate (limiter w).
Proof.
  revert w. induction fl as [|fl IH]; intros w; [done|].
  rewrite acquire_step. cbv zeta.
  destruct (Qlt_le_dec _ _); [|done].
  destruct (Qlt_le_dec _ 0); [done|].
  by rewrite IH.
Qed.

Lemma run_op_rate_floor op w :
  ((1 # 1000) <= rate (limiter w))%Q →
  ((1 # 1000) <= rate (limiter (snd (run_op op E w))))%Q.
Proof.
  intros Hw. destruct op as [rps|fl n]; simpl.
  - apply py_max_ge_l.
  - by rewrite acquire_rate.
Qed.

Lemma run_ops_rate_floor ops : ∀ w,
  ((1 # 1000) <= rate (limiter w))%Q →
  ((1 # 1000) <= rate (limiter (run_ops ops E w)))%Q.
Proof.
  induction ops as [|op ops IH]; intros w Hw; [done|].
  cbn [run_ops]. by apply IH, run_op_rate_floor.
Qed.

Lemma run_ops_app ops1 ops2 w :
  run_ops (ops1 ++ ops2) E w = run_ops ops2 E (run_ops ops1 E w).
Proof. revert w. induction ops1 as [|op ops1 IH]; intros w; [done|]. apply IH. Qed.

(** X1.  [set_rate] clamps and nothing undoes it.  Whatever value it is
    given, zero and negative ones included, [set_rate] leaves the rate at
    that value when it exceeds 0.001 and at 0.001 otherwise, and touches
    neither tokens, refill stamp nor capacity; [acquire] never changes the
    rate; so once [set_rate] has been called the rate is at least 0.001
    after every later sequence of [set_rate] and [acquire] calls, however
    these end. *)
Theorem set_rate_floor_persists pre rps post w :
  let w0 := run_ops pre E w in
  let w1 := snd (set_rate rps E w0) in
  (((1 # 1000) < rps)%Q → rate (limiter w1) = rps)
  ∧ ((rps <= (1 # 1000))%Q → rate (limiter w1) = (1 # 1000)%Q)
  ∧ tokens (limiter w1) = tokens (limiter w0)
  ∧ ts (limiter w1) = ts (limiter w0)
  ∧ capacity (limiter w1) = capacity (limiter w0)
  ∧ (∀ fl n w2, rate (limiter (snd (acquire fl n E w2))) = rate (limiter w2))
  ∧ ((1 # 1000)
       <= rate (limiter (run_ops (pre ++ OpSetRate rps :: post) E w)))%Q.
Proof.
  intros w0 w1.
  destruct (set_rate_clamps rps w0) as (_ & Hfloor & Hgt & Hle & Htok & Hts & Hcap & _).
  fold w1 in Hfloor, Hgt, Hle, Htok, Hts, Hcap.
  split; [done|]. split; [done|]. split; [done|]. split; [done|]. split; [done|].
  split.
  - intros fl n w2. apply acquire_rate.
  - rewrite run_ops_app. cbn [run_ops run_op].
    by apply run_ops_rate_floor.
Qed.

(** X9.  The constructor does not clamp the rate.  A limiter whose rate is
    zero or negative never gains a token (the clock not going backwards):
    once its bucket holds fewer than [n] tokens, [acquire(n)] never
    returns, however many turns of the loop it is given. *)
Theorem acquire_without_rate_blocks fl n w :
  monotone_clock E →
  (rate (limiter w) <= 0)%Q →
  (ts (limiter w) <= time_time E (clock_reads w))%Q →
  (tokens (limiter w) < inject_Z n)%Q →
  fst (acquire fl n E w) ≠ Ret tt
  ∧ (unit_random E → fst (acquire fl n E w) = Timeout).
Proof.
  intros Hmono. revert w.
  induction fl as [|fl IH]; intros w Hrate Hts Htok; [done|].
  rewrite acquire_step. cbv zeta.
  assert (Hgain : (0 <= (time_time E (clock_reads w) - ts (limiter w))
                        * - rate (limiter w))%Q)
    by (apply Qmult_le_0_compat; lra).
  assert (Hr : (refill (time_time E (clock_reads w)) (limiter w) < inject_Z n)%Q).
  { unfold refill, py_min. destruct (Qlt_le_dec _ _); lra. }
  destruct (Qlt_le_dec _ _) as [_|Hok];
    [|exfalso; by apply (Qlt_not_le _ _ Hr)].
  destruct (Qlt_le_dec _ 0) as [Hneg|_].
  - split; [done|]. intros Hrand. exfalso.
    by apply (poll_sleep_nonneg _ (Hrand (random_draws w))).
  - apply IH; simpl; try done.
    apply Hmono. lia.
Qed.

End Limiter.

(** * The retry loop *)

Section Wrapper.
Variable E : env.
Variables (max_attempts : nat) (base_backoff : Q).
Variables (a : list pyobj) (kws : list (string * pyobj)) (fuel : nat).
Implicit Types (w : world) (k : nat) (ks : list nat) (resp : response).

Local Abbreviation loop := (retry_loop max_attempts base_backoff a kws fuel).

Lemma frame_refl w : frame w w.
Proof. done. Qed.

Lemma frame_trans w1 w2 w3 : frame w1 w2 → frame w2 w3 → frame w1 w3.
Proof. intros (?&?&?) (?&?&?). repeat split; congruence. Qed.

Lemma failure_ret w : failure E w = (Ret tt, after_failure E w).
Proof.
  unfold after_failure, failure, bind, get, modify, now; simpl.
  by destruct (_ <=? _)%Z.
Qed.

Lemma after_failure_frame w :
  frame w (after_failure E w)
  ∧ limiter (after_failure E w) = limiter w
  ∧ sleeps (after_failure E w) = sleeps w
  ∧ random_draws (after_failure E w) = random_draws w.
Proof.
  unfold after_failure, failure, bind, get, modify, now, frame; simpl.
  by destruct (_ <=? _)%Z.
Qed.

Lemma backoffs_poll l d : backoffs (l ++ [(AcquirePoll, d)]) = backoffs l.
Proof. unfold backoffs. rewrite omap_app; simpl. by rewrite app_nil_r. Qed.

Lemma backoffs_backoff l d : backoffs (l ++ [(Backoff, d)]) = backoffs l ++ [d].
Proof. unfold backoffs. by rewrite omap_app. Qed.

Lemma acquire_frame fl n w :
  frame w (snd (acquire fl n E w))
  ∧ breaker (snd (acquire fl n E w)) = breaker w
  ∧ rate (limiter (snd (acquire fl n E w))) = rate (limiter w).
Proof.
  revert w. induction fl as [|fl IH]; intros w; [done|].
  rewrite acquire_step. cbv zeta.
  destruct (Qlt_le_dec _ _); [|done].
  destruct (Qlt_le_dec _ 0); [done|].
  match goal with |- context [acquire fl n E ?w0] =>
    destruct (IH w0) as ((Hc & Hd & Hb) & Hbr & Hr) end.
  unfold frame. rewrite Hc, Hd, Hb, Hbr, Hr. simpl.
  by rewrite backoffs_poll.
Qed.

(** The gate of an attempt: [breaker.before()] then [rate.acquire()]. *)
Lemma gate_eq w :
  (before ;; acquire fuel 1) E w =
    if Qlt_le_dec (time_time E (clock_reads w)) (open_until (breaker w))
    then (Raise (RuntimeError "circuit-open"), tick_clock w)
    else acquire fuel 1 E (tick_clock w).
Proof.
  unfold before, bind, now, get, raise, ret. cbn beta iota.
  by destruct (Qlt_le_dec _ _).
Qed.

Lemma gate_frame w :
  frame w (snd ((before ;; acquire fuel 1) E w))
  ∧ breaker (snd ((before ;; acquire fuel 1) E w)) = breaker w.
Proof.
  rewrite gate_eq. destruct (Qlt_le_dec _ _); [by unfold frame|].
  destruct (acquire_frame fuel 1 (tick_clock w)) as (Hf & Hb & _).
  by rewrite Hb.
Qed.

Lemma adjust_rate_cases resp w :
  (adjust_rate resp E w = (Ret tt, w)
   ∨ (∃ q, adjust_rate resp E w = (Ret tt, snd (set_rate q E w)))
   ∨ (∃ e, adjust_rate resp E w = (Raise e, w))).
Proof.
  unfold adjust_rate.
  destruct (default ∅ (headers resp) !! "X-Rate-Limit-RPS") as [s|]; [|by left].
  destruct (truthy s); [|by left].
  unfold bind, py_float. destruct (float E s) as [q|e].
  - right; left. by exists q.
  - right; right. by exists e.
Qed.

Lemma adjust_rate_frame resp w :
  frame w (snd (adjust_rate resp E w))
  ∧ breaker (snd (adjust_rate resp E w)) = breaker w
  ∧ fst (adjust_rate resp E w) ≠ Timeout.
Proof.
  destruct (adjust_rate_cases resp w) as [H|[(q & H)|(e & H)]]; by rewrite H.
Qed.

Lemma adjust_rate_ok resp w :
  rate_header_ok E resp → fst (adjust_rate resp E w) = Ret tt.
Proof.
  unfold rate_header_ok, adjust_rate.
  destruct (default ∅ (headers resp) !! "X-Rate-Limit-RPS") as [s|]; [|done].
  destruct (truthy s); [|done].
  intros Hq. destruct (Hq eq_refl) as (q & Hf).
  unfold bind, py_float. by rewrite Hf.
Qed.

Lemma request_eq w :
  request a kws fuel E w =
    match (before ;; acquire fuel 1) E w with
    | (Ret _, w1) =>
        match fn E (fn_calls w1) a kws with
        | Returns resp =>
            match adjust_rate resp E (tick_fn w1) with
            | (Ret _, w2) => (Ret resp, w2)
            | (Raise e, w2) => (Raise e, w2)
            | (Timeout, w2) => (Timeout, w2)
            end
        | Raises e => (Raise e, tick_fn w1)
        end
    | (Raise e, w1) => (Raise e, w1)
    | (Timeout, w1) => (Timeout, w1)
    end.
Proof.
  unfold request, bind, call_fn, ret.
  destruct (before E w) as [[[]|e|] w0]; try done.
  destruct (acquire fuel 1 E w0) as [[[]|e|] w1]; try done.
  destruct (fn E (fn_calls w1) a kws) as [resp|e]; try done.
Qed.

Lemma request_frame w :
  fn_calls w ≤ fn_calls (snd (request a kws fuel E w)) ≤ S (fn_calls w)
  ∧ dead_letter (snd (request a kws fuel E w)) = dead_letter w
  ∧ backoffs (sleeps (snd (request a kws fuel E w))) = backoffs (sleeps w).
Proof.
  rewrite request_eq.
  destruct (gate_frame w) as ((Hc & Hd & Hb) & _).
  destruct ((before ;; acquire fuel 1) E w) as [[[]|e|] w1]; simpl in *;
    try (rewrite Hc, Hd, Hb; repeat split; lia).
  destruct (fn E (fn_calls w1) a kws) as [resp|e]; simpl;
    try (rewrite Hc, Hd, Hb; repeat split; lia).
  destruct (adjust_rate_frame resp (tick_fn w1)) as ((Hc' & Hd' & Hb') & _).
  destruct (adjust_rate resp E (tick_fn w1)) as [[[]|e|] w2]; simpl in *;
    rewrite Hc', Hd', Hb', Hc, Hd, Hb; repeat split; lia.
Qed.

Lemma attempt_eq w :
  attempt a kws fuel E w =
    match request a kws fuel E w with
    | (Ret resp, w1) => classify a kws resp E w1
    | (Raise e, w1) => (Raise e, w1)
    | (Timeout, w1) => (Timeout, w1)
    end.
Proof. reflexivity. Qed.

Lemma classify_eq resp w :
  classify a kws resp E w =
    if (default 200%Z (status resp) =? 200)%Z
    then (match data resp with
          | Some d => Ret d
          | None => Raise (KeyError "data")
          end, snd (success E w))
    else match status resp with
         | None => (Raise (KeyError "status"), w)
         | Some s =>
             if retryable_status s
             then (Raise retryable_error, w)
             else (Raise no_active_exception,
                   set_dead_letter
                     (deque_append {| args := a; kw := kws;
                                      reason := "status-" +:+ str_int s |}
                                   (dead_letter w)) w)
         end.
Proof.
  unfold classify.
  destruct (default 200%Z (status resp) =? 200)%Z.
  - unfold bind, success, modify; simpl. by destruct (data resp).
  - destruct (status resp) as [s|]; [|done].
    by destruct (retryable_status s).
Qed.

(** One turn of the [for] loop, spelled out. *)
Lemma loop_cons k ks w :
  loop (k :: ks) E w =
    match attempt a kws fuel E w with
    | (Ret v, w1) => (Ret v, w1)
    | (Raise e, w1) =>
        let w2 := after_failure E w1 in
        if negb (contains "retryable" (exn_str e)) || (k =? max_attempts)%nat
        then (Raise e,
              set_dead_letter
                (deque_append {| args := a; kw := kws; reason := exn_str e |}
                              (dead_letter w2)) w2)
        else
          let d := backoff base_backoff k (random_random E (random_draws w2)) in
          if Qlt_le_dec d 0
          then (Raise (ValueError "sleep length must be non-negative"),
                tick_random w2)
          else loop ks E (log_sleep Backoff d (tick_random w2))
    | (Timeout, w1) => (Timeout, w1)
    end.
Proof.
  cbn [retry_loop]. unfold bind at 1, catch.
  destruct (attempt a kws fuel E w) as [[v|e|] w1]; try done.
  unfold bind at 1. rewrite failure_ret. cbv zeta.
  destruct (negb _ || _).
  - unfold bind, dead_letter_append, modify, raise. done.
  - unfold bind at 1, random. unfold bind at 1, sleep.
    destruct (Qlt_le_dec _ 0); done.
Qed.

(** C4.  When the breaker is open at an attempt (any [k], whatever attempts
    [ks] would follow), the rejection of [before()] goes down the path of the
    terminal errors: [failure()] is called, one entry with reason
    [circuit-open] is appended to the dead-letter queue, and
    [RuntimeError("circuit-open")] reaches the caller at once, the wrapped
    function not having been called and no pause having been made. *)
Theorem open_breaker_is_terminal k ks w :
  (time_time E (clock_reads w) < open_until (breaker w))%Q →
  let w1 := after_failure E (tick_clock w) in
  loop (k :: ks) E w =
    (Raise (RuntimeError "circuit-open"),
     set_dead_letter
       (deque_append {| args := a; kw := kws; reason := "circuit-open" |}
                     (dead_letter w)) w1)
  ∧ failure E (tick_clock w) = (Ret tt, w1)
  ∧ fn_calls w1 = fn_calls w
  ∧ sleeps w1 = sleeps w.
Proof.
  intros Hopen w1. subst w1.
  destruct (after_failure_frame (tick_clock w)) as ((Hc & Hd & _) & _ & Hs & _).
  repeat split; [|apply failure_ret|done|done].
  rewrite loop_cons, attempt_eq, request_eq, gate_eq.
  destruct (Qlt_le_dec _ _) as [_|Hge];
    [|exfalso; by apply (Qlt_not_le _ _ Hopen)].
  cbv zeta. change (exn_str (RuntimeError "circuit-open")) with "circuit-open".
  replace (contains "retryable" "circuit-open") with false by (by vm_compute).
  cbn [negb orb]. by rewrite Hd.
Qed.

(** C1, at the path that breaks it.  When the call of an attempt returns a
    status that is neither 200 nor retryable, the loop appends TWO entries to
    the dead-letter queue, one with reason [status-<code>] before its bare
    [raise] and one with reason [No active exception to reraise] in the
    handler, and the caller gets that [RuntimeError]. *)
Theorem non_retryable_status_recorded_twice k ks w resp w1 st :
  request a kws fuel E w = (Ret resp, w1) →
  status resp = Some st →
  st ≠ 200%Z →
  retryable_status st = false →
  let e1 := {| args := a; kw := kws; reason := "status-" +:+ str_int st |} in
  let e2 := {| args := a; kw := kws; reason := "No active exception to reraise" |} in
  fst (loop (k :: ks) E w) = Raise no_active_exception
  ∧ dead_letter (snd (loop (k :: ks) E w)) =
      deque_append e2 (deque_append e1 (dead_letter w)).
Proof.
  intros Hreq Hst Hne Hnr e1 e2. subst e1 e2.
  pose proof (request_frame w) as (_ & Hd & _).
  rewrite Hreq in Hd; simpl in Hd.
  rewrite loop_cons, attempt_eq, Hreq, classify_eq, Hst. simpl.
  destruct (Z.eqb_spec st 200) as [|_]; [done|].
  rewrite Hnr. cbv zeta.
  change (exn_str no_active_exception) with "No active exception to reraise".
  replace (contains "retryable" "No active exception to reraise") with false
    by (by vm_compute).
  cbn [negb orb fst snd].
  match goal with |- context [after_failure E ?w0] =>
    destruct (after_failure_frame w0) as ((_ & Hd' & _) & _) end.
  simpl. rewrite Hd'. simpl. by rewrite Hd.
Qed.

(** C10.  A response without a ['status'] key is classified just as the
    same response with status 200.  When the request of an attempt gave such
    a response with payload [d], the wrapper calls [success()] (so
    [fail_count] is 0), records no dead letter and returns [d]. *)
Theorem missing_status_is_success resp :
  status resp = None →
  classify a kws resp =
    classify a kws {| status := Some 200%Z; headers := headers resp;
                      data := data resp |}
  ∧ ∀ k ks w w1 d,
      request a kws fuel E w = (Ret resp, w1) →
      data resp = Some d →
      loop (k :: ks) E w = (Ret d, snd (success E w1))
      ∧ fail_count (breaker (snd (success E w1))) = 0%Z
      ∧ dead_letter (snd (success E w1)) = dead_letter w.
Proof.
  intros Hst. split.
  - unfold classify. rewrite Hst. reflexivity.
  - intros k ks w w1 d Hreq Hd.
    pose proof (request_frame w) as (_ & Hdl & _).
    rewrite Hreq in Hdl; simpl in Hdl.
    rewrite loop_cons, attempt_eq, Hreq, classify_eq, Hst, Hd. simpl.
    done.
Qed.

Lemma pow2_ge_1 (n : nat) : (1 <= inject_Z (2 ^ Z.of_nat n))%Q.
Proof.
  change 1%Q with (inject_Z 1). rewrite <- Zle_Qle.
  pose proof (Z.pow_pos_nonneg 2 (Z.of_nat n)). lia.
Qed.


Lemma backoff_nonneg base k u :
  (0 <= base)%Q → (0 <= u)%Q → (0 <= backoff base k u)%Q.
Proof.
  intros Hb Hu. unfold backoff.
  pose proof (pow2_ge_1 (k - 1)).
  apply Qmult_le_0_compat; [apply Qmult_le_0_compat|]; lra.
Qed.

Lemma retryable_not_200 st : retryable_status st = true → st ≠ 200%Z.
Proof. intros H ->. by vm_compute in H. Qed.

Lemma classify_limiter resp w :
  limiter (snd (classify a kws resp E w)) = limiter w.
Proof.
  rewrite classify_eq.
  destruct (_ =? _)%Z; [done|].
  destruct (status resp) as [st|]; [|done].
  by destruct (retryable_status st).
Qed.

(** C9.  When the gate of an attempt is passed and the call returns a
    response whose ['X-Rate-Limit-RPS'] header is a non-empty string that
    [float] reads as [q], the request step has set the limiter's rate to
    [max(0.001, q)] before the status is looked at; the rate is that after
    the attempt whatever the status; and on a retryable status that is not
    the last attempt, the loop goes on to the remaining attempts from a world
    whose limiter has that rate. *)
Theorem rate_header_applied_before_classification k ks w w1 resp s q :
  (before ;; acquire fuel 1) E w = (Ret tt, w1) →
  fn E (fn_calls w1) a kws = Returns resp →
  default ∅ (headers resp) !! "X-Rate-Limit-RPS" = Some s →
  truthy s = true →
  float E s = inl q →
  let w2 := snd (set_rate q E (tick_fn w1)) in
  request a kws fuel E w = (Ret resp, w2)
  ∧ rate (limiter w2) = py_max (1 # 1000) q
  ∧ rate (limiter (snd (attempt a kws fuel E w))) = py_max (1 # 1000) q
  ∧ (∀ st,
       status resp = Some st → retryable_status st = true →
       k ≠ max_attempts → (0 <= base_backoff)%Q → unit_random E →
       ∃ w3, loop (k :: ks) E w = loop ks E w3
             ∧ rate (limiter w3) = py_max (1 # 1000) q).
Proof.
  intros Hgate Hfn Hhdr Htruthy Hfloat w2.
  assert (Hadj : adjust_rate resp E (tick_fn w1) = (Ret tt, w2)).
  { unfold adjust_rate. rewrite Hhdr, Htruthy.
    unfold bind, py_float. by rewrite Hfloat. }
  assert (Hreq : request a kws fuel E w = (Ret resp, w2)).
  { by rewrite request_eq, Hgate, Hfn, Hadj. }
  assert (Hrate : rate (limiter w2) = py_max (1 # 1000) q) by done.
  repeat split; try done.
  - rewrite attempt_eq, Hreq. by rewrite classify_limiter.
  - intros st Hst Hretry Hk Hbase Hrand.
    pose proof (retryable_not_200 st Hretry) as Hne.
    rewrite loop_cons, attempt_eq, Hreq, classify_eq, Hst. simpl.
    destruct (Z.eqb_spec st 200) as [|_]; [done|].
    rewrite Hretry. cbv zeta.
    change (exn_str retryable_error) with "retryable".
    replace (contains "retryable" "retryable") with true by (by vm_compute).
    destruct (Nat.eqb_spec k max_attempts) as [|_]; [done|].
    cbn [negb orb].
    destruct (Qlt_le_dec _ 0) as [Hneg|_].
    + exfalso. apply (Qlt_not_le _ _ Hneg).
      apply backoff_nonneg; [done|apply Hrand].
    + eexists. split; [reflexivity|].
      destruct (after_failure_frame w2) as (_ & Hl & _).
      simpl. by rewrite Hl.
Qed.

Lemma classify_frame resp w :
  fn_calls (snd (classify a kws resp E w)) = fn_calls w
  ∧ sleeps (snd (classify a kws resp E w)) = sleeps w.
Proof.
  rewrite classify_eq.
  destruct (_ =? _)%Z; [done|].
  destruct (status resp) as [st|]; [|done].
  by destruct (retryable_status st).
Qed.

Lemma attempt_frame w :
  fn_calls w ≤ fn_calls (snd (attempt a kws fuel E w)) ≤ S (fn_calls w)
  ∧ backoffs (sleeps (snd (attempt a kws fuel E w))) = backoffs (sleeps w).
Proof.
  rewrite attempt_eq.
  pose proof (request_frame w) as (Hc & _ & Hb).
  destruct (request a kws fuel E w) as [[resp|e|] w1]; simpl in *; try done.
  destruct (classify_frame resp w1) as (Hc' & Hs').
  by rewrite Hc', Hs'.
Qed.

(** An attempt either stops before calling the wrapped function, or goes
    on from what the call gave. *)
Lemma attempt_cases w :
  fn_calls (snd (attempt a kws fuel E w)) = fn_calls w
  ∨ ∃ w0, frame w w0
      ∧ attempt a kws fuel E w =
          match fn E (fn_calls w) a kws with
          | Returns resp =>
              match adjust_rate resp E (tick_fn w0) with
              | (Ret _, w2) => classify a kws resp E w2
              | (Raise e, w2) => (Raise e, w2)
              | (Timeout, w2) => (Timeout, w2)
              end
          | Raises e => (Raise e, tick_fn w0)
          end.
Proof.
  rewrite attempt_eq, request_eq.
  destruct (gate_frame w) as (Hf & _).
  destruct ((before ;; acquire fuel 1) E w) as [[[]|e|] w0]; simpl in Hf;
    [|left; apply Hf..].
  right. exists w0. split; [done|].
  destruct Hf as (-> & _).
  destruct (fn E (fn_calls w) a kws) as [resp|e]; [|done].
  by destruct (adjust_rate resp E (tick_fn w0)) as [[[]|e|] w2].
Qed.

Lemma loop_calls_le ks w :
  fn_calls (snd (loop ks E w)) ≤ fn_calls w + length ks.
Proof.
  revert w. induction ks as [|k ks IH]; intros w; [simpl; lia|].
  rewrite loop_cons.
  pose proof (attempt_frame w) as (Hc & _).
  destruct (attempt a kws fuel E w) as [[v|e|] w1]; simpl in *; try lia.
  destruct (after_failure_frame w1) as ((Hc' & _) & _).
  destruct (negb _ || _); [simpl; lia|].
  destruct (Qlt_le_dec _ 0); [simpl; lia|].
  etrans; [apply IH|]. simpl. lia.
Qed.

Lemma retryable_attempt w :
  retryable_response E (fn E (fn_calls w) a kws) →
  fn_calls (snd (attempt a kws fuel E w)) = fn_calls w
  ∨ ∃ w1, attempt a kws fuel E w = (Raise retryable_error, w1)
      ∧ fn_calls w1 = S (fn_calls w)
      ∧ dead_letter w1 = dead_letter w.
Proof.
  intros Hresp.
  destruct (attempt_cases w) as [Hno|(w0 & (Hc & Hd & _) & Heq)]; [by left|].
  right. rewrite Heq.
  destruct (fn E (fn_calls w) a kws) as [resp|e]; [|done].
  destruct Hresp as ((st & Hst & Hretry) & Hhdr).
  pose proof (adjust_rate_ok resp (tick_fn w0) Hhdr) as Hok.
  destruct (adjust_rate_frame resp (tick_fn w0)) as ((Hc' & Hd' & _) & _).
  destruct (adjust_rate resp E (tick_fn w0)) as [[[]|e|] w2]; simpl in *;
    try done.
  rewrite classify_eq, Hst. simpl.
  destruct (Z.eqb_spec st 200) as [->|_]; [by vm_compute in Hretry|].
  rewrite Hretry. exists w2. repeat split; congruence.
Qed.

Lemma loop_exhausted n : ∀ k w,
  k + n = S max_attempts → 1 ≤ n →
  every_attempt_retryable E a kws n w (snd (loop (seq k n) E w)) →
  fst (loop (seq k n) E w) = Raise retryable_error
  ∧ dead_letter (snd (loop (seq k n) E w)) =
      deque_append {| args := a; kw := kws; reason := "retryable" |}
                   (dead_letter w).
Proof.
  induction n as [|n IH]; intros k w Hk Hn (Hcalls & Hall); [lia|].
  revert Hcalls. cbn [seq].
  pose proof (loop_calls_le (seq (S k) n) ) as Hle.
  rewrite length_seq in Hle.
  rewrite loop_cons.
  assert (H0 : retryable_response E (fn E (fn_calls w) a kws)).
  { specialize (Hall 0 ltac:(lia)). by rewrite Nat.add_0_r in Hall. }
  destruct (retryable_attempt w H0) as [Hno|(w1 & Hatt & Hc1 & Hd1)].
  - (* the attempt never reached the call: too few calls in all *)
    destruct (attempt a kws fuel E w) as [[v|e|] w1]; simpl in *;
      try (intros; lia).
    destruct (after_failure_frame w1) as ((Hc' & _) & _).
    destruct (negb _ || _); [simpl; intros; lia|].
    destruct (Qlt_le_dec _ 0); [simpl; intros; lia|].
    match goal with |- context [loop _ E ?w0] => specialize (Hle w0) end.
    simpl in Hle. intros. lia.
  - rewrite Hatt. cbv zeta.
    destruct (after_failure_frame w1) as ((Hc' & Hd' & _) & _).
    change (exn_str retryable_error) with "retryable".
    replace (contains "retryable" "retryable") with true by (by vm_compute).
    cbn [negb orb].
    destruct (Nat.eqb_spec k max_attempts) as [Hlast|Hmore].
    + intros _. simpl. by rewrite Hd', Hd1.
    + destruct (Qlt_le_dec _ 0); [simpl; intros; lia|].
      intros Hcalls.
      match goal with |- context [loop _ E ?w0] => set (w3 := w0) in * end.
      assert (Hc3 : fn_calls w3 = S (fn_calls w)) by (subst w3; simpl; lia).
      assert (Hd3 : dead_letter w3 = dead_letter w)
        by (subst w3; simpl; congruence).
      rewrite <- Hd3. apply IH; [lia|lia|].
      split; [lia|].
      intros i Hi. rewrite Hc3.
      replace (S (fn_calls w) + i) with (fn_calls w + S i) by lia.
      apply Hall. lia.
Qed.

(** C2, as amended.  When the wrapper has called the wrapped function
    [max_attempts] times (at least once) and every call returned a response
    with a retryable status whose rate header, if there is one, is empty or
    a number that [float] reads, the caller gets [RuntimeError("retryable")],
    the very error the loop raises for itself on such a status, after one
    dead-letter entry with reason [retryable] has been appended.  (A header
    that [float] rejects raises before the status is looked at.) *)
Theorem exhaustion_surfaces_retryable_error w :
  1 ≤ max_attempts →
  let r := wrapper max_attempts base_backoff a kws fuel E w in
  fn_calls (snd r) = fn_calls w + max_attempts →
  (∀ i, i < max_attempts →
     ∃ resp st,
       fn E (fn_calls w + i) a kws = Returns resp
       ∧ status resp = Some st
       ∧ retryable_status st = true
       ∧ rate_header_ok E resp) →
  fst r = Raise retryable_error
  ∧ dead_letter (snd r) =
      deque_append {| args := a; kw := kws; reason := "retryable" |}
                   (dead_letter w).
Proof.
  intros Hmax r Hcalls Hall. subst r. unfold wrapper in *.
  apply loop_exhausted; [lia|done|].
  split; [done|].
  intros i Hi. destruct (Hall i Hi) as (resp & st & -> & Hst & Hretry & Hhdr).
  split; [by exists st|done].
Qed.

(** The pauses of the loop over the attempts [k, k+1, ...], in order. *)
Lemma loop_backoffs n : ∀ k w,
  unit_random E → k + n = S max_attempts →
  ∃ us, Forall unit_draw us
    ∧ length us ≤ n - 1
    ∧ backoffs (sleeps (snd (loop (seq k n) E w))) =
        backoffs (sleeps w) ++ zip_with (backoff base_backoff) (seq k (length us)) us.
Proof.
  induction n as [|n IH]; intros k w Hrand Hk.
  { exists []. simpl. by rewrite app_nil_r. }
  cbn [seq]. rewrite loop_cons.
  pose proof (attempt_frame w) as (_ & Hb).
  destruct (attempt a kws fuel E w) as [[v|e|] w1]; simpl in Hb;
    try (exists []; simpl; rewrite app_nil_r; by split; [|split; [lia|] ]).
  destruct (after_failure_frame w1) as (_ & _ & Hs & _).
  cbv zeta.
  destruct (negb _ || (k =? max_attempts)%nat) eqn:Hterm.
  { exists []. simpl. rewrite app_nil_r, Hs. by split; [|split; [lia|] ]. }
  destruct (Qlt_le_dec _ 0).
  { exists []. simpl. rewrite app_nil_r, Hs. by split; [|split; [lia|] ]. }
  apply orb_false_elim in Hterm as (_ & Hne).
  apply Nat.eqb_neq in Hne.
  match goal with |- context [loop _ E ?w0] =>
    destruct (IH (S k) w0 Hrand ltac:(lia)) as (us & Hus & Hlen & Heq) end.
  exists (random_random E (random_draws (after_failure E w1)) :: us).
  split; [constructor; [apply Hrand|done]|].
  split; [simpl; lia|].
  rewrite Heq. simpl. rewrite backoffs_backoff, Hs, Hb.
  by rewrite <- app_assoc.
Qed.



Lemma acquire_raises fl : ∀ n w e w',
  acquire fl n E w = (Raise e, w') →
  e = ValueError "sleep length must be non-negative".
Proof.
  induction fl as [|fl IH]; intros n w e w'; [done|].
  rewrite acquire_step. cbv zeta.
  destruct (Qlt_le_dec _ _); [|done].
  destruct (Qlt_le_dec _ 0); [by intros [= <- _]|].
  apply IH.
Qed.




(** ** More on the retry loop *)

Lemma request_ret w resp w2 :
  request a kws fuel E w = (Ret resp, w2) →
  fn E (fn_calls w) a kws = Returns resp
  ∧ fn_calls w2 = S (fn_calls w)
  ∧ dead_letter w2 = dead_letter w.
Proof.
  rewrite request_eq.
  destruct (gate_frame w) as ((Hc & Hd & _) & _).
  destruct ((before ;; acquire fuel 1) E w) as [[[]|e|] w0]; simpl in *; try done.
  rewrite Hc.
  destruct (fn E (fn_calls w) a kws) as [resp'|e]; [|done].
  destruct (adjust_rate_frame resp' (tick_fn w0)) as ((Hc' & Hd' & _) & _).
  destruct (adjust_rate resp' E (tick_fn w0)) as [[[]|e|] w2']; simpl in *; try done.
  intros [= <- <-]. repeat split; congruence.
Qed.

Lemma loop_calls_ge ks w : fn_calls w ≤ fn_calls (snd (loop ks E w)).
Proof.
  revert w. induction ks as [|k ks IH]; intros w; [done|].
  rewrite loop_cons.
  pose proof (attempt_frame w) as (Hc & _).
  destruct (attempt a kws fuel E w) as [[v|e|] w1]; simpl in *; try lia.
  destruct (after_failure_frame w1) as ((Hc' & _) & _).
  destruct (negb _ || _); [simpl; lia|].
  destruct (Qlt_le_dec _ 0); [simpl; lia|].
  etrans; [|apply IH]. simpl. lia.
Qed.

(** X10.  [max_attempts] is a hard ceiling: whatever the wrapped function,
    the clock and the state of limiter and breaker, one call of the wrapper
    invokes the wrapped function at most [max_attempts] times. *)
Theorem wrapper_calls_at_most w :
  fn_calls w ≤ fn_calls (snd (wrapper max_attempts base_backoff a kws fuel E w))
  ∧ fn_calls (snd (wrapper max_attempts base_backoff a kws fuel E w))
      ≤ fn_calls w + max_attempts.
Proof.
  unfold wrapper. split; [apply loop_calls_ge|].
  etrans; [apply loop_calls_le|]. by rewrite length_seq.
Qed.

Lemma gate_rate w :
  rate (limiter (snd ((before ;; acquire fuel 1) E w))) = rate (limiter w).
Proof.
  rewrite gate_eq. destruct (Qlt_le_dec _ _); [done|].
  by destruct (acquire_frame fuel 1 (tick_clock w)) as (_ & _ & ->).
Qed.

(** X15.  A response with status 200 (or none) but without a ['data'] key
    is not a success: [success()] has been called, but the [KeyError] of
    [resp['data']] is handled like any other error, so [failure()] follows,
    one entry with reason ['data'] (in quotes) goes on the queue and the
    [KeyError] reaches the caller. *)
Theorem missing_data_is_a_failure k ks w resp w1 :
  request a kws fuel E w = (Ret resp, w1) →
  default 200%Z (status resp) = 200%Z →
  data resp = None →
  let w2 := after_failure E (snd (success E w1)) in
  loop (k :: ks) E w =
    (Raise (KeyError "data"),
     set_dead_letter
       (deque_append {| args := a; kw := kws; reason := "'data'" |}
                     (dead_letter w)) w2)
  ∧ fail_count (breaker (snd (success E w1))) = 0%Z.
Proof.
  intros Hreq H200 Hdata w2. subst w2.
  destruct (request_ret _ _ _ Hreq) as (_ & _ & Hd).
  match goal with |- context [after_failure E ?w0] =>
    destruct (after_failure_frame w0) as ((_ & Hd' & _) & _) end.
  rewrite loop_cons, attempt_eq, Hreq, classify_eq, H200, Hdata.
  cbn [Z.eqb Pos.eqb]. cbv zeta.
  change (exn_str (KeyError "data")) with "'data'".
  replace (contains "retryable" "'data'") with false by (by vm_compute).
  cbn [negb orb]. split; [|done].
  by rewrite Hd', <- Hd.
Qed.

(** X16.  A rate header that [float] cannot read makes the attempt fail
    whatever the status, 200 included: the [ValueError] is raised before the
    status is looked at.  Unless its message contains [retryable], the call
    ends there with one entry on the queue, the limiter's rate is as it
    was, and the breaker has counted a failure. *)
Theorem unreadable_rate_header_is_terminal k ks w w0 resp s e :
  (before ;; acquire fuel 1) E w = (Ret tt, w0) →
  fn E (fn_calls w0) a kws = Returns resp →
  default ∅ (headers resp) !! "X-Rate-Limit-RPS" = Some s →
  truthy s = true →
  float E s = inr e →
  contains "retryable" (exn_str e) = false →
  let w1 := after_failure E (tick_fn w0) in
  loop (k :: ks) E w =
    (Raise e,
     set_dead_letter
       (deque_append {| args := a; kw := kws; reason := exn_str e |}
                     (dead_letter w)) w1)
  ∧ rate (limiter w1) = rate (limiter w).
Proof.
  intros Hgate Hfn Hhdr Htruthy Hfloat Hmsg w1. subst w1.
  destruct (gate_frame w) as ((_ & Hd & _) & _).
  rewrite Hgate in Hd; simpl in Hd.
  pose proof (gate_rate w) as Hrate. rewrite Hgate in Hrate; simpl in Hrate.
  destruct (after_failure_frame (tick_fn w0)) as ((_ & Hd' & _) & Hl & _).
  assert (Hadj : adjust_rate resp E (tick_fn w0) = (Raise e, tick_fn w0)).
  { unfold adjust_rate. rewrite Hhdr, Htruthy.
    unfold bind, py_float. by rewrite Hfloat. }
  rewrite loop_cons, attempt_eq, request_eq, Hgate, Hfn, Hadj. cbv zeta.
  rewrite Hmsg. cbn [negb orb]. split.
  - by rewrite Hd', <- Hd.
  - by rewrite Hl.
Qed.

Lemma attempt_rate_cases w :
  rate (limiter (snd (attempt a kws fuel E w))) = rate (limiter w)
  ∨ ∃ resp s q,
      fn E (fn_calls w) a kws = Returns resp
      ∧ default ∅ (headers resp) !! "X-Rate-Limit-RPS" = Some s
      ∧ truthy s = true
      ∧ float E s = inl q
      ∧ rate (limiter (snd (attempt a kws fuel E w))) = py_max (1 # 1000) q.
Proof.
  rewrite attempt_eq, request_eq.
  pose proof (gate_rate w) as Hrate.
  destruct (gate_frame w) as ((Hc & _) & _).
  destruct ((before ;; acquire fuel 1) E w) as [[[]|e|] w0] eqn:Hgate;
    simpl in Hc, Hrate; [|by left|by left].
  rewrite Hc.
  destruct (fn E (fn_calls w) a kws) as [resp|e]; [|by left].
  unfold adjust_rate.
  destruct (default ∅ (headers resp) !! "X-Rate-Limit-RPS") as [s|] eqn:Hhdr;
    [|left; cbn [ret]; by rewrite classify_limiter].
  destruct (truthy s) eqn:Htruthy;
    [|left; cbn [ret]; by rewrite classify_limiter].
  unfold bind, py_float. destruct (float E s) as [q|e] eqn:Hfloat; [|by left].
  right. exists resp, s, q. repeat split; try done.
  cbn [set_rate modify]. by rewrite classify_limiter.
Qed.

(** X17.  Only a rate header changes the rate.  After an attempt the
    limiter's rate is what it was, unless the wrapped function returned a
    response whose ['X-Rate-Limit-RPS'] header is a non-empty string that
    [float] reads as some [q]; then it is [max(0.001, q)].  A missing
    ['headers'] key, a missing header and an empty header all leave the
    rate alone. *)
Theorem rate_changes_only_by_header w :
  rate (limiter (snd (attempt a kws fuel E w))) = rate (limiter w)
  ∨ ∃ resp s q,
      fn E (fn_calls w) a kws = Returns resp
      ∧ default ∅ (headers resp) !! "X-Rate-Limit-RPS" = Some s
      ∧ s ≠ ""
      ∧ float E s = inl q
      ∧ rate (limiter (snd (attempt a kws fuel E w))) = py_max (1 # 1000) q
      ∧ ((1 # 1000) <= py_max (1 # 1000) q)%Q.
Proof.
  destruct (attempt_rate_cases w) as [H|(resp & s & q & Hfn & Hhdr & Ht & Hf & Hr)];
    [by left|].
  right. exists resp, s, q. repeat split; try done.
  - intros ->. done.
  - apply py_max_ge_l.
Qed.

Lemma backoff_negative base k u :
  (base < 0)%Q → unit_draw u → (backoff base k u < 0)%Q.
Proof.
  intros Hb (H0 & H1). unfold backoff.
  pose proof (pow2_ge_1 (k - 1)) as HA.
  set (A := inject_Z (2 ^ Z.of_nat (k - 1))) in *.
  assert (HbA : (0 < (- base) * A)%Q) by (apply Qmult_lt_0_compat; lra).
  assert (Hu : (0 <= ((- base) * A) * u)%Q) by (apply Qmult_le_0_compat; lra).
  lra.
Qed.

(** X18.  With a negative [base_backoff] a retried failure never reaches
    the queue: when an attempt before the last ends on a retryable status,
    [time.sleep] refuses the negative pause, and its [ValueError], raised
    inside the handler, reaches the caller with nothing added to the
    dead-letter queue and the remaining attempts not made. *)
Theorem negative_backoff_escapes_unrecorded k ks w resp w1 st :
  request a kws fuel E w = (Ret resp, w1) →
  status resp = Some st →
  retryable_status st = true →
  k ≠ max_attempts →
  (base_backoff < 0)%Q → unit_random E →
  fst (loop (k :: ks) E w) = Raise (ValueError "sleep length must be non-negative")
  ∧ dead_letter (snd (loop (k :: ks) E w)) = dead_letter w
  ∧ fn_calls (snd (loop (k :: ks) E w)) = S (fn_calls w).
Proof.
  intros Hreq Hst Hretry Hk Hbase Hrand.
  destruct (request_ret _ _ _ Hreq) as (_ & Hc & Hd).
  pose proof (retryable_not_200 st Hretry) as Hne.
  destruct (after_failure_frame w1) as ((Hc' & Hd' & _) & _).
  rewrite loop_cons, attempt_eq, Hreq, classify_eq, Hst. simpl.
  destruct (Z.eqb_spec st 200) as [|_]; [done|].
  rewrite Hretry. cbv zeta.
  change (exn_str retryable_error) with "retryable".
  replace (contains "retryable" "retryable") with true by (by vm_compute).
  destruct (Nat.eqb_spec k max_attempts) as [|_]; [done|].
  cbn [negb orb].
  destruct (Qlt_le_dec _ 0) as [_|Hge].
  - simpl. repeat split; congruence.
  - exfalso. apply (Qlt_not_le _ _ (backoff_negative base_backoff k _ Hbase
                      (Hrand (random_draws (after_failure E w1))))), Hge.
Qed.

Lemma calls_step (n : nat) (m : M pyobj) w :
  snd (calls (S n) m E w) =
    match m E w with
    | (Timeout, w1) => w1
    | (_, w1) => snd (calls n m E w1)
    end.
Proof.
  cbn [calls]. unfold bind, catch.
  by destruct (m E w) as [[v|e|] w1].
Qed.

End Wrapper.

(** * The wrapper in any calling context *)

Section AnyContext.
Variable C : context.
Variable E : env.
Variables (max_attempts : nat) (base_backoff : Q).
Variables (a : list pyobj) (kws : list (string * pyobj)) (fuel : nat).

Local Abbreviation loop_in := (retry_loop_in C max_attempts base_backoff a kws fuel).
Local Abbreviation entries := (map (status_entry a kws)).

Lemma attempt_in_eq w :
  attempt_in C a kws fuel E w =
    match request a kws fuel E w with
    | (Ret resp, w1) => classify_in C a kws resp E w1
    | (Raise e, w1) => (Raise e, w1)
    | (Timeout, w1) => (Timeout, w1)
    end.
Proof. reflexivity. Qed.

Lemma classify_in_eq resp w :
  classify_in C a kws resp E w =
    if (default 200%Z (status resp) =? 200)%Z
    then (match data resp with
          | Some d => Ret d
          | None => Raise (KeyError "data")
          end, snd (success E w))
    else match status resp with
         | None => (Raise (KeyError "status"), w)
         | Some s =>
             if retryable_status s
             then (Raise retryable_error, w)
             else (Raise (bare_raise C),
                   set_dead_letter
                     (deque_append (status_entry a kws s) (dead_letter w)) w)
         end.
Proof.
  unfold classify_in.
  destruct (default 200%Z (status resp) =? 200)%Z.
  - unfold bind, success, modify; simpl. by destruct (data resp).
  - destruct (status resp) as [s|]; [|done].
    by destruct (retryable_status s).
Qed.

(** One turn of the [for] loop, spelled out. *)
Lemma loop_in_cons k ks w :
  loop_in (k :: ks) E w =
    match attempt_in C a kws fuel E w with
    | (Ret v, w1) => (Ret v, w1)
    | (Raise e, w1) =>
        if is_Exception C e
        then
          let w2 := after_failure E w1 in
          if negb (contains "retryable" (exn_str e)) || (k =? max_attempts)%nat
          then (Raise e,
                set_dead_letter
                  (deque_append {| args := a; kw := kws; reason := exn_str e |}
                                (dead_letter w2)) w2)
          else
            let d := backoff base_backoff k (random_random E (random_draws w2)) in
            if Qlt_le_dec d 0
            then (Raise (ValueError "sleep length must be non-negative"),
                  tick_random w2)
            else loop_in ks E (log_sleep Backoff d (tick_random w2))
        else (Raise e, w1)
    | (Timeout, w1) => (Timeout, w1)
    end.
Proof.
  cbn [retry_loop_in]. unfold bind at 1, catch_Exception.
  destruct (attempt_in C a kws fuel E w) as [[v|e|] w1]; try done.
  destruct (is_Exception C e); [|done].
  unfold bind at 1. rewrite failure_ret. cbv zeta.
  destruct (negb _ || _).
  - unfold bind, dead_letter_append, modify, raise. done.
  - unfold bind at 1, random. unfold bind at 1, sleep.
    destruct (Qlt_le_dec _ 0); done.
Qed.

(** What an attempt does to the queue and to the count of calls. *)
Lemma attempt_in_frame w :
  fn_calls w ≤ fn_calls (snd (attempt_in C a kws fuel E w)) ≤ S (fn_calls w)
  ∧ (dead_letter (snd (attempt_in C a kws fuel E w)) = dead_letter w
     ∨ ∃ st, terminal_status st
         ∧ fst (attempt_in C a kws fuel E w) = Raise (bare_raise C)
         ∧ dead_letter (snd (attempt_in C a kws fuel E w)) =
             deque_append (status_entry a kws st) (dead_letter w)).
Proof.
  rewrite attempt_in_eq.
  pose proof (request_frame E a kws fuel w) as (Hc & Hd & _).
  destruct (request a kws fuel E w) as [[resp|e'|] w2]; simpl in Hc, Hd;
    [|split; [done|by left]..].
  rewrite classify_in_eq.
  destruct (Z.eqb_spec (default 200%Z (status resp)) 200) as [|Hne];
    [split; [done|by left]|].
  destruct (status resp) as [st|]; [|split; [done|by left]].
  destruct (retryable_status st) eqn:Hretry; [split; [done|by left]|].
  split; [done|]. right. exists st. simpl. rewrite Hd. done.
Qed.

Lemma attempt_in_ret w v w1 :
  attempt_in C a kws fuel E w = (Ret v, w1) →
  ∃ resp w2, request a kws fuel E w = (Ret resp, w2)
    ∧ default 200%Z (status resp) = 200%Z
    ∧ data resp = Some v
    ∧ w1 = snd (success E w2).
Proof.
  rewrite attempt_in_eq.
  destruct (request a kws fuel E w) as [[resp|e|] w2]; try done.
  rewrite classify_in_eq.
  destruct (Z.eqb_spec (default 200%Z (status resp)) 200) as [H200|_].
  - destruct (data resp) as [d|] eqn:Hd; [|done].
    intros [= <- <-]. by exists resp, w2.
  - destruct (status resp) as [st|]; [|done].
    by destruct (retryable_status st).
Qed.

(** The loop that returns. *)
Lemma loop_in_ret n : ∀ k w v w',
  k + n = S max_attempts →
  loop_in (seq k n) E w = (Ret v, w') →
  (∃ sts, Forall terminal_status sts
     ∧ length sts ≤ n - 1
     ∧ (retries_bare C = false → sts = [])
     ∧ dead_letter w' = record_all (entries sts) (dead_letter w))
  ∧ ((n = 0 ∧ v = PyNone ∧ w' = w)
     ∨ (fail_count (breaker w') = 0%Z
        ∧ fn_calls w < fn_calls w'
        ∧ ∃ resp, fn E (fn_calls w' - 1) a kws = Returns resp
            ∧ default 200%Z (status resp) = 200%Z
            ∧ data resp = Some v)).
Proof.
  induction n as [|n IH]; intros k w v w' Hk.
  { intros [= <- <-]. split; [by exists []|by left]. }
  cbn [seq]. rewrite loop_in_cons.
  pose proof (attempt_in_frame w) as ((Hge & _) & Hdead).
  destruct (attempt_in C a kws fuel E w) as [[v1|e1|] w1] eqn:Hatt;
    simpl in Hge, Hdead; [| |done].
  - intros [= <- <-].
    destruct Hdead as [Hd|(st & _ & [=] & _)].
    split; [exists []; repeat split; simpl; first [done|lia]|].
    right.
    destruct (attempt_in_ret _ _ _ Hatt) as (resp & w2 & Hreq & H200 & Hdata & ->).
    destruct (request_ret E a kws fuel _ _ _ Hreq) as (Hfn & Hc & _).
    split; [done|]. simpl. split; [lia|].
    exists resp. rewrite Hc. replace (S (fn_calls w) - 1) with (fn_calls w) by lia.
    done.
  - destruct (is_Exception C e1) eqn:Hexc; [|done].
    cbv zeta.
    destruct (after_failure_frame E w1) as ((Hc' & Hd' & _) & _).
    destruct (negb (contains "retryable" (exn_str e1)) || (k =? max_attempts)%nat)
      eqn:Hterm; [done|].
    apply orb_false_elim in Hterm as (Hretry & Hne).
    apply negb_false_iff in Hretry. apply Nat.eqb_neq in Hne.
    destruct (Qlt_le_dec _ 0); [done|].
    intros Hrest.
    destruct (IH (S k) _ _ _ ltac:(lia) Hrest)
      as ((sts & Hsts & Hlen & Hnone & Hd) & Hpay).
    simpl in Hd, Hpay. rewrite Hd' in Hd.
    split.
    + destruct Hdead as [Hd1|(st & Hst & [= ->] & Hd1)].
      * exists sts. rewrite Hd, Hd1. repeat split; first [done|lia].
      * exists (st :: sts). split; [by constructor|].
        assert (Hbare : retries_bare C = true)
          by (unfold retries_bare; by rewrite Hexc, Hretry).
        split; [simpl; lia|].
        split; [by rewrite Hbare|].
        by rewrite Hd, Hd1.
    + right. destruct Hpay as [(-> & _)|(Hcount & Hlt & Hresp)]; [lia|].
      rewrite Hc' in Hlt. split; [done|]. split; [lia|done].
Qed.

(** X11.  What the wrapper returns, in any calling context.  With
    [max_attempts = 0] it returns [None] without doing anything; otherwise
    the value is the ['data'] of the answer to the last call of the wrapped
    function, whose status was 200 or missing, and the breaker's counter is
    back at 0.  A call that returns has added to the dead-letter queue only
    [status-<code>] entries of attempts that were retried, which takes a
    caller that is handling an instance of [Exception] whose message
    contains [retryable]; a call from outside any [except] block that
    returns has added nothing. *)
Theorem wrapper_returns_payload w v w' :
  wrapper_in C max_attempts base_backoff a kws fuel E w = (Ret v, w') →
  (∃ sts, Forall terminal_status sts
     ∧ length sts ≤ max_attempts - 1
     ∧ (retries_bare C = false → sts = [])
     ∧ dead_letter w' = record_all (entries sts) (dead_letter w))
  ∧ (handled C = None → dead_letter w' = dead_letter w)
  ∧ ((max_attempts = 0 ∧ v = PyNone ∧ w' = w)
     ∨ (fail_count (breaker w') = 0%Z
        ∧ fn_calls w < fn_calls w'
        ∧ ∃ resp, fn E (fn_calls w' - 1) a kws = Returns resp
            ∧ default 200%Z (status resp) = 200%Z
            ∧ data resp = Some v)).
Proof.
  unfold wrapper_in. intros Hrun.
  destruct (loop_in_ret max_attempts 1 w v w' eq_refl Hrun)
    as ((sts & Hsts & Hlen & Hnone & Hd) & Hpay).
  split; [by exists sts|]. split; [|done].
  intros Htop. rewrite Hd, Hnone; [done|].
  unfold retries_bare, bare_raise. rewrite Htop.
  apply andb_false_intro2. by vm_compute.
Qed.

(** The loop that raises. *)
Lemma loop_in_raise ks : ∀ w e w',
  (0 <= base_backoff)%Q → unit_random E →
  loop_in ks E w = (Raise e, w') →
  ∃ sts, Forall terminal_status sts
    ∧ length sts ≤ length ks
    ∧ (retries_bare C = false → sts = [] ∨ ∃ st, sts = [st] ∧ e = bare_raise C)
    ∧ dead_letter w' =
        if is_Exception C e
        then deque_append {| args := a; kw := kws; reason := exn_str e |}
                          (record_all (entries sts) (dead_letter w))
        else record_all (entries sts) (dead_letter w).
Proof.
  induction ks as [|k ks IH]; intros w e w' Hbase Hrand; [done|].
  rewrite loop_in_cons.
  pose proof (attempt_in_frame w) as (_ & Hdead).
  destruct (attempt_in C a kws fuel E w) as [[v1|e1|] w1] eqn:Hatt;
    simpl in Hdead; [done| |done].
  destruct (is_Exception C e1) eqn:Hexc.
  - cbv zeta.
    destruct (after_failure_frame E w1) as ((_ & Hd' & _) & _).
    destruct (negb (contains "retryable" (exn_str e1)) || (k =? max_attempts)%nat)
      eqn:Hterm.
    + intros [= <- <-]. rewrite Hexc. cbn [dead_letter set_dead_letter]. rewrite Hd'.
      destruct Hdead as [Hd1|(st & Hst & [= ->] & Hd1)].
      * exists []. rewrite Hd1. repeat split; simpl; first [done|lia|by left].
      * exists [st]. rewrite Hd1. split; [by constructor|].
        split; [simpl; lia|]. split; [|done].
        intros _. right. by exists st.
    + apply orb_false_elim in Hterm as (Hretry & _).
      apply negb_false_iff in Hretry.
      destruct (Qlt_le_dec _ 0) as [Hneg|_].
      { exfalso. apply (Qlt_not_le _ _ Hneg).
        apply backoff_nonneg; [done|apply Hrand]. }
      intros Hrest.
      destruct (IH _ _ _ Hbase Hrand Hrest) as (sts & Hsts & Hlen & Hfew & Hd).
      simpl in Hd. rewrite Hd' in Hd.
      destruct Hdead as [Hd1|(st & Hst & [= ->] & Hd1)].
      * exists sts. rewrite Hd1 in Hd. repeat split; simpl; first [done|lia].
      * exists (st :: sts). split; [by constructor|].
        split; [simpl; lia|].
        split; [|by rewrite Hd1 in Hd].
        unfold retries_bare. by rewrite Hexc, Hretry.
  - intros [= <- <-]. rewrite Hexc.
    destruct Hdead as [Hd1|(st & Hst & [= ->] & Hd1)].
    + exists []. repeat split; simpl; first [done|lia|by left].
    + exists [st]. split; [by constructor|].
      split; [simpl; lia|]. split; [|done].
      intros _. right. by exists st.
Qed.

(** X12.  What a failed call leaves on the queue, in any calling context.
    With [base_backoff] not negative and draws of [random.random()] in
    [[0, 1)], an exception that reaches the caller and is an instance of
    [Exception] has been put last on the dead-letter queue, with the
    caller's arguments and [str(e)] as reason; one that is not (a
    [KeyboardInterrupt], a [SystemExit]) passes through [except Exception]
    and is not recorded.  Before that the call has added only
    [status-<code>] entries, one for each attempt that got a status neither
    200 nor retryable: none or one when the bare [raise] is not retried (as
    in a call from outside any [except] block), and if one, the exception
    is that of the bare [raise]. *)
Theorem failure_is_recorded_last w e w' :
  (0 <= base_backoff)%Q → unit_random E →
  wrapper_in C max_attempts base_backoff a kws fuel E w = (Raise e, w') →
  ∃ sts, Forall terminal_status sts
    ∧ length sts ≤ max_attempts
    ∧ (retries_bare C = false → sts = [] ∨ ∃ st, sts = [st] ∧ e = bare_raise C)
    ∧ (is_Exception C e = true →
         dead_letter w' =
           deque_append {| args := a; kw := kws; reason := exn_str e |}
                        (record_all (entries sts) (dead_letter w)))
    ∧ (is_Exception C e = false →
         dead_letter w' = record_all (entries sts) (dead_letter w)).
Proof.
  unfold wrapper_in. intros Hbase Hrand Hrun.
  destruct (loop_in_raise _ _ _ _ Hbase Hrand Hrun) as (sts & Hsts & Hlen & Hfew & Hd).
  rewrite length_seq in Hlen.
  exists sts. split; [done|]. split; [done|]. split; [done|].
  split; intros Hexc; by rewrite Hexc in Hd.
Qed.

Lemma attempt_in_of_raising_call w w0 e :
  (before ;; acquire fuel 1) E w = (Ret tt, w0) →
  fn E (fn_calls w0) a kws = Raises e →
  attempt_in C a kws fuel E w = (Raise e, tick_fn w0).
Proof. intros Hgate Hfn. by rewrite attempt_in_eq, request_eq, Hgate, Hfn. Qed.

(** X13.  An exception raised by the wrapped function, once the gate of
    the attempt is passed.  If it is not an instance of [Exception], it
    leaves the wrapper at once: [failure()] is not called and nothing is
    recorded.  If it is one and its message does not contain [retryable],
    it ends the call on whatever attempt: the breaker counts a failure, one
    entry with [str(e)] as reason goes on the queue, no pause is made, the
    remaining attempts are dropped and the same exception reaches the
    caller. *)
Theorem function_error_is_terminal k ks w w0 e :
  (before ;; acquire fuel 1) E w = (Ret tt, w0) →
  fn E (fn_calls w0) a kws = Raises e →
  (is_Exception C e = false →
     loop_in (k :: ks) E w = (Raise e, tick_fn w0)
     ∧ breaker (tick_fn w0) = breaker w
     ∧ dead_letter (tick_fn w0) = dead_letter w)
  ∧ (is_Exception C e = true →
     contains "retryable" (exn_str e) = false →
     let w1 := after_failure E (tick_fn w0) in
     loop_in (k :: ks) E w =
       (Raise e,
        set_dead_letter
          (deque_append {| args := a; kw := kws; reason := exn_str e |}
                        (dead_letter w)) w1)
     ∧ failure E (tick_fn w0) = (Ret tt, w1)
     ∧ fn_calls w1 = S (fn_calls w)
     ∧ backoffs (sleeps w1) = backoffs (sleeps w)).
Proof.
  intros Hgate Hfn.
  destruct (gate_frame E fuel w) as ((Hc & Hd & Hb) & Hbr).
  rewrite Hgate in Hc, Hd, Hb, Hbr; simpl in Hc, Hd, Hb, Hbr.
  split.
  - intros Hexc.
    rewrite loop_in_cons, (attempt_in_of_raising_call w w0 e Hgate Hfn), Hexc.
    done.
  - intros Hexc Hmsg w1. subst w1.
    destruct (after_failure_frame E (tick_fn w0)) as ((Hc' & Hd' & Hb') & _).
    rewrite loop_in_cons, (attempt_in_of_raising_call w w0 e Hgate Hfn), Hexc.
    cbv zeta. rewrite Hmsg. cbn [negb orb].
    split; [by rewrite Hd', <- Hd|].
    split; [apply failure_ret|].
    split.
    + rewrite Hc'. simpl. by rewrite Hc.
    + rewrite Hb'. simpl. by rewrite Hb.
Qed.

(** X14.  The test for retrying is a substring test on the message: an
    instance of [Exception] raised by the wrapped function itself whose
    message contains [retryable] is retried like a retryable status.
    Before the last attempt (and with a pause that is not negative) the
    loop counts a failure, pauses and goes on with the remaining attempts,
    and nothing goes on the queue. *)
Theorem retryable_message_is_retried k ks w w0 e :
  (before ;; acquire fuel 1) E w = (Ret tt, w0) →
  fn E (fn_calls w0) a kws = Raises e →
  is_Exception C e = true →
  contains "retryable" (exn_str e) = true →
  k ≠ max_attempts →
  (0 <= base_backoff)%Q → unit_random E →
  let w1 := after_failure E (tick_fn w0) in
  let d := backoff base_backoff k (random_random E (random_draws w1)) in
  loop_in (k :: ks) E w = loop_in ks E (log_sleep Backoff d (tick_random w1))
  ∧ failure E (tick_fn w0) = (Ret tt, w1)
  ∧ dead_letter w1 = dead_letter w
  ∧ fn_calls w1 = S (fn_calls w).
Proof.
  intros Hgate Hfn Hexc Hmsg Hk Hbase Hrand w1 d. subst w1 d.
  destruct (gate_frame E fuel w) as ((Hc & Hd & _) & _).
  rewrite Hgate in Hc, Hd; simpl in Hc, Hd.
  destruct (after_failure_frame E (tick_fn w0)) as ((Hc' & Hd' & _) & _).
  rewrite loop_in_cons, (attempt_in_of_raising_call w w0 e Hgate Hfn), Hexc.
  cbv zeta. rewrite Hmsg. cbn [negb orb].
  destruct (Nat.eqb_spec k max_attempts) as [|_]; [done|].
  destruct (Qlt_le_dec _ 0) as [Hneg|_].
  { exfalso. apply (Qlt_not_le _ _ Hneg).
    apply backoff_nonneg; [done|apply Hrand]. }
  split; [done|]. split; [apply failure_ret|]. split.
  - by rewrite Hd', <- Hd.
  - rewrite Hc'. simpl. by rewrite Hc.
Qed.

(** What one run of the loop adds to the queue. *)
Lemma loop_in_adds ks : ∀ w, ∃ xs,
  length xs ≤ S (length ks)
  ∧ (retries_bare C = false → length xs ≤ 2)
  ∧ dead_letter (snd (loop_in ks E w)) = record_all xs (dead_letter w).
Proof.
  induction ks as [|k ks IH]; intros w;
    [exists []; repeat split; simpl; first [done|lia]|].
  rewrite loop_in_cons.
  pose proof (attempt_in_frame w) as (_ & Hdead).
  destruct (attempt_in C a kws fuel E w) as [[v1|e1|] w1] eqn:Hatt;
    simpl in Hdead.
  - destruct Hdead as [Hd1|(st & _ & [=] & _)].
    exists []. repeat split; simpl; first [done|lia].
  - destruct (is_Exception C e1) eqn:Hexc.
    + cbv zeta.
      destruct (after_failure_frame E w1) as ((_ & Hd' & _) & _).
      destruct (negb (contains "retryable" (exn_str e1)) || (k =? max_attempts)%nat)
        eqn:Hterm.
      * cbn [snd dead_letter set_dead_letter]. rewrite Hd'.
        destruct Hdead as [Hd1|(st & _ & _ & Hd1)]; rewrite Hd1.
        -- exists [ {| args := a; kw := kws; reason := exn_str e1 |} ].
           repeat split; simpl; first [done|lia].
        -- exists [ status_entry a kws st;
                    {| args := a; kw := kws; reason := exn_str e1 |} ].
           repeat split; simpl; first [done|lia].
      * apply orb_false_elim in Hterm as (Hretry & _).
        apply negb_false_iff in Hretry.
        destruct (Qlt_le_dec _ 0) as [_|_].
        -- cbn [snd dead_letter tick_random]. rewrite Hd'.
           destruct Hdead as [Hd1|(st & _ & _ & Hd1)]; rewrite Hd1.
           ++ exists []. repeat split; simpl; first [done|lia].
           ++ exists [status_entry a kws st]. repeat split; simpl; first [done|lia].
        -- match goal with |- context [loop_in ks E ?w0] =>
             destruct (IH w0) as (xs & Hlen & Hfew & ->) end.
           cbn [dead_letter log_sleep tick_random]. rewrite Hd'.
           destruct Hdead as [Hd1|(st & _ & [= ->] & Hd1)]; rewrite Hd1.
           ++ exists xs. repeat split; simpl; first [done|lia].
           ++ exists (status_entry a kws st :: xs).
              split; [simpl; lia|]. split; [|done].
              unfold retries_bare. by rewrite Hexc, Hretry.
    + cbn [snd].
      destruct Hdead as [Hd1|(st & _ & _ & Hd1)]; rewrite Hd1.
      * exists []. repeat split; simpl; first [done|lia].
      * exists [status_entry a kws st]. repeat split; simpl; first [done|lia].
  - destruct Hdead as [Hd1|(st & _ & [=] & _)].
    exists []. repeat split; simpl; first [done|lia].
Qed.

(** X19.  The dead-letter queue is bounded over any number of calls, in any
    calling context.  One call of the wrapper adds at most
    [max_attempts + 1] entries, and at most two when the bare [raise] is
    not retried (as in calls from outside any [except] block); however many
    calls a caller makes, going on after whatever they raise, the queue
    keeps its [maxlen] and never holds more entries than that: with the
    module's [deque(maxlen=10000)], never more than 10000. *)
Theorem dead_letter_stays_bounded (n : nat) w :
  deque_len (dead_letter w) ≤ maxlen (dead_letter w) →
  let w' := snd (calls n (wrapper_in C max_attempts base_backoff a kws fuel) E w) in
  maxlen (dead_letter w') = maxlen (dead_letter w)
  ∧ deque_len (dead_letter w') ≤ maxlen (dead_letter w)
  ∧ deque_len (dead_letter w') ≤ deque_len (dead_letter w) + (max_attempts + 1) * n
  ∧ (retries_bare C = false →
       deque_len (dead_letter w') ≤ deque_len (dead_letter w) + 2 * n).
Proof.
  unfold deque_len, wrapper_in. cbv zeta. revert w.
  induction n as [|n IH]; intros w Hle; [simpl; repeat split; lia|].
  rewrite calls_step.
  destruct (loop_in_adds (seq 1 max_attempts) w) as (xs & Hlen & Hfew & Hd).
  rewrite length_seq in Hlen.
  destruct (record_all_bounded xs (dead_letter w) Hle) as (Hb & Hb').
  pose proof (record_all_maxlen xs (dead_letter w)) as Hm.
  rewrite <- Hd in Hb, Hb', Hm. clear Hd.
  destruct (loop_in (seq 1 max_attempts) E w) as [r w1]. simpl in Hb, Hb', Hm.
  assert (Hle1 : length (items (dead_letter w1)) ≤ maxlen (dead_letter w1))
    by (rewrite Hm; exact Hb).
  destruct (IH w1 Hle1) as (Hm1 & Hb1 & Hb1' & Hb1'').
  destruct r as [v|e|]; repeat split; try intros Hno;
    try specialize (Hfew Hno); try specialize (Hb1'' Hno); nia.
Qed.

Lemma adjust_rate_raises resp w e w' :
  adjust_rate resp E w = (Raise e, w') → ∃ s, float E s = inr e.
Proof.
  unfold adjust_rate.
  destruct (default ∅ (headers resp) !! "X-Rate-Limit-RPS") as [s|]; [|done].
  destruct (truthy s); [|done].
  unfold bind, py_float. destruct (float E s) as [q|e'] eqn:Hfloat; [done|].
  intros [= <- _]. by exists s.
Qed.

Lemma attempt_raises_Exception w e w1 :
  only_Exceptions C E →
  attempt a kws fuel E w = (Raise e, w1) →
  is_Exception C e = true.
Proof.
  intros (Hfn & Hfloat & Hown).
  assert (HR : ∀ m, is_Exception C (RuntimeError m) = true)
    by (intros m; apply Hown; simpl; set_solver).
  assert (HV : ∀ m, is_Exception C (ValueError m) = true)
    by (intros m; apply Hown; simpl; set_solver).
  assert (HK : ∀ m, is_Exception C (KeyError m) = true)
    by (intros m; apply Hown; simpl; set_solver).
  rewrite attempt_eq, request_eq, gate_eq.
  destruct (Qlt_le_dec _ _); [by intros [= <- _]|].
  destruct (acquire fuel 1 E (tick_clock w)) as [[[]|e0|] w0] eqn:Hacq; [| |done].
  2: { intros [= <- _]. by apply acquire_raises in Hacq as ->. }
  destruct (fn E (fn_calls w0) a kws) as [resp|e0] eqn:Hcall.
  2: { intros [= <- _]. by eapply Hfn. }
  destruct (adjust_rate resp E (tick_fn w0)) as [[[]|e0|] w2] eqn:Hadj; [| |done].
  2: { intros [= <- _]. apply adjust_rate_raises in Hadj as (s & Hs).
       by eapply Hfloat. }
  rewrite classify_eq.
  destruct (_ =? _)%Z.
  - destruct (data resp); [done|]. intros [= <- _]. apply HK.
  - destruct (status resp) as [st|]; [|intros [= <- _]; apply HK].
    destruct (retryable_status st); intros [= <- _]; apply HR.
Qed.

Lemma attempt_in_top w :
  handled C = None → attempt_in C a kws fuel E w = attempt a kws fuel E w.
Proof.
  intros Htop. rewrite attempt_in_eq, attempt_eq.
  destruct (request a kws fuel E w) as [[resp|e|] w1]; try done.
  rewrite classify_in_eq, classify_eq. unfold bare_raise. by rewrite Htop.
Qed.

(** Called outside of any [except] block and with errors that are all
    instances of [Exception], the wrapper in context is the wrapper of the
    first part. *)
Lemma wrapper_in_top w :
  handled C = None → only_Exceptions C E →
  wrapper_in C max_attempts base_backoff a kws fuel E w =
    wrapper max_attempts base_backoff a kws fuel E w.
Proof.
  intros Htop Hexc. unfold wrapper_in, wrapper.
  generalize (seq 1 max_attempts) as ks. intros ks. revert w.
  induction ks as [|k ks IH]; intros w; [done|].
  rewrite loop_in_cons, loop_cons, attempt_in_top by done.
  pose proof (attempt_raises_Exception w) as Hraise.
  destruct (attempt a kws fuel E w) as [[v|e|] w1]; try done.
  rewrite (Hraise e w1 Hexc eq_refl). cbv zeta.
  destruct (negb _ || _); [done|].
  destruct (Qlt_le_dec _ 0); [done|]. apply IH.
Qed.

End AnyContext.

(** * The gate of an attempt, and retries against the breaker *)

Section Gate.
Variable E : env.
Variable fl : nat.
Hypothesis Hmono : monotone_clock E.

Lemma bucket_ok_later w w' :
  limiter w' = limiter w → clock_reads w ≤ clock_reads w' →
  bucket_ok E w → bucket_ok E w'.
Proof.
  intros Hl Hc (H0 & Hcap & Hrate & Hts). unfold bucket_ok. rewrite Hl.
  repeat split; try done.
  eapply Qle_trans; [exact Hts|]. by apply Hmono.
Qed.

(** The gate lets the call through when the breaker is closed and the
    bucket holds a token: two readings of the clock, one token taken. *)
Lemma gate_passes w :
  bucket_ok E w → (1 <= tokens (limiter w))%Q →
  (open_until (breaker w) <= time_time E (clock_reads w))%Q →
  ∃ w0, (before ;; acquire (S fl) 1) E w = (Ret tt, w0)
    ∧ bucket_ok E w0
    ∧ (tokens (limiter w) - 1 <= tokens (limiter w0))%Q
    ∧ rate (limiter w0) = rate (limiter w)
    ∧ breaker w0 = breaker w
    ∧ dead_letter w0 = dead_letter w
    ∧ fn_calls w0 = fn_calls w
    ∧ clock_reads w0 = S (S (clock_reads w)).
Proof.
  intros Hok Htok Hopen.
  rewrite gate_eq.
  destruct (Qlt_le_dec _ _) as [Hlt|_]; [exfalso; lra|].
  assert (Hok1 : bucket_ok E (tick_clock w))
    by (apply (bucket_ok_later w); simpl; [done|lia|done]).
  assert (Hone : fst (acquire (S fl) 1 E (tick_clock w)) = Ret tt
            ∧ clock_reads (snd (acquire (S fl) 1 E (tick_clock w)))
                = S (clock_reads (tick_clock w))
            ∧ (tokens (limiter w) - 1
                 <= tokens (limiter (snd (acquire (S fl) 1 E (tick_clock w)))))%Q).
  { destruct Hok1 as (_ & Hcap & Hrate & Hts).
    pose proof (refill_ge_tokens (time_time E (clock_reads (tick_clock w)))
                  (limiter (tick_clock w)) Hcap Hrate Hts) as Hge.
    rewrite acquire_step. cbv zeta. change (inject_Z 1) with 1%Q.
    simpl in Hge. destruct (Qlt_le_dec _ _) as [Hlt|_]; [exfalso; simpl in Hlt; lra|].
    simpl. repeat split; try done. lra. }
  destruct Hone as (Hret & Hclock & Hge).
  pose proof (acquire_ok E (S fl) 1 (tick_clock w) Hmono ltac:(lia) Hok1) as Hok2.
  destruct (acquire_frame E (S fl) 1 (tick_clock w)) as ((Hc & Hd & _) & Hb & Hr).
  destruct (acquire (S fl) 1 E (tick_clock w)) as [r w0].
  simpl in Hret. subst r. exists w0. simpl in *. done.
Qed.

End Gate.

Section Trip.
Variable E : env.
Variables (max_attempts : nat) (base_backoff : Q).
Variables (a : list pyobj) (kws : list (string * pyobj)) (fl : nat).
Hypothesis Hmono : monotone_clock E.
Hypothesis Hrand : unit_random E.
Hypothesis Hbase : (0 <= base_backoff)%Q.

Local Abbreviation loop := (retry_loop max_attempts base_backoff a kws (S fl)).

(** An attempt that passes the gate and gets a retryable status. *)
Lemma attempt_retryable_passes w :
  bucket_ok E w → (1 <= tokens (limiter w))%Q →
  (open_until (breaker w) <= time_time E (clock_reads w))%Q →
  retryable_response E (fn E (fn_calls w) a kws) →
  ∃ w1, attempt a kws (S fl) E w = (Raise retryable_error, w1)
    ∧ bucket_ok E w1
    ∧ (tokens (limiter w) - 1 <= tokens (limiter w1))%Q
    ∧ breaker w1 = breaker w
    ∧ dead_letter w1 = dead_letter w
    ∧ fn_calls w1 = S (fn_calls w)
    ∧ clock_reads w1 = S (S (clock_reads w)).
Proof.
  intros Hok Htok Hopen Hresp.
  destruct (gate_passes E fl Hmono w Hok Htok Hopen)
    as (w0 & Hgate & Hok0 & Ht0 & _ & Hb0 & Hd0 & Hc0 & Hk0).
  rewrite attempt_eq, request_eq, Hgate, Hc0.
  destruct (fn E (fn_calls w) a kws) as [resp|e]; [|done].
  destruct Hresp as ((st & Hst & Hretry) & Hhdr).
  pose proof (adjust_rate_ok E resp (tick_fn w0) Hhdr) as Hret.
  assert (Hw2 : ∃ w2, adjust_rate resp E (tick_fn w0) = (Ret tt, w2)
            ∧ bucket_ok E w2
            ∧ tokens (limiter w2) = tokens (limiter w0)
            ∧ breaker w2 = breaker w0
            ∧ dead_letter w2 = dead_letter w0
            ∧ fn_calls w2 = S (fn_calls w0)
            ∧ clock_reads w2 = clock_reads w0).
  { assert (Hok' : bucket_ok E (tick_fn w0))
      by (apply (bucket_ok_later E Hmono w0); simpl; done).
    destruct (adjust_rate_cases E resp (tick_fn w0)) as [Heq|[(q & Heq)|(e & Heq)]].
    - exists (tick_fn w0). rewrite Heq. done.
    - exists (snd (set_rate q E (tick_fn w0))). rewrite Heq.
      split; [done|]. split; [by apply set_rate_ok|done].
    - by rewrite Heq in Hret. }
  destruct Hw2 as (w2 & -> & Hok2 & Ht2 & Hb2 & Hd2 & Hc2 & Hk2).
  rewrite classify_eq, Hst. simpl.
  destruct (Z.eqb_spec st 200) as [->|_]; [by vm_compute in Hretry|].
  rewrite Hretry. exists w2.
  split; [done|]. split; [done|]. split; [by rewrite Ht2|].
  repeat split; congruence.
Qed.

Lemma trip (n : nat) : ∀ k w,
  1 ≤ n → k + n ≤ max_attempts →
  bucket_ok E w →
  (inject_Z (Z.of_nat n) <= tokens (limiter w))%Q →
  (fail_count (breaker w) + Z.of_nat n = fail_threshold (breaker w))%Z →
  (open_until (breaker w) <= time_time E (clock_reads w))%Q →
  (∀ i j, time_time E j < time_time E i + reset_after (breaker w))%Q →
  (∀ i, i < n → retryable_response E (fn E (fn_calls w + i) a kws)) →
  let r := loop (seq k (S max_attempts - k)) E w in
  fst r = Raise (RuntimeError "circuit-open")
  ∧ fn_calls (snd r) = fn_calls w + n
  ∧ dead_letter (snd r) =
      deque_append {| args := a; kw := kws; reason := "circuit-open" |}
                   (dead_letter w).
Proof.
  induction n as [|n IH]; intros k w Hn Hk Hok Htok Hcount Hopen Hslow Hall; [lia|].
  cbv zeta.
  replace (S max_attempts - k) with (S (S max_attempts - S k)) by lia.
  change (seq k (S (S max_attempts - S k)))
    with (k :: seq (S k) (S max_attempts - S k)).
  rewrite loop_cons.
  assert (Htok1 : (1 <= tokens (limiter w))%Q).
  { eapply Qle_trans; [|exact Htok].
    change 1%Q with (inject_Z 1). rewrite <- Zle_Qle. lia. }
  destruct (attempt_retryable_passes w Hok Htok1 Hopen)
    as (w1 & -> & Hok1 & Ht1 & Hb1 & Hd1 & Hc1 & Hk1).
  { specialize (Hall 0 ltac:(lia)). by rewrite Nat.add_0_r in Hall. }
  cbv zeta.
  change (contains "retryable" (exn_str retryable_error)) with true.
  destruct (Nat.eqb_spec k max_attempts) as [|_]; [lia|].
  cbn [negb orb].
  destruct (Qlt_le_dec _ 0) as [Hneg|_].
  { exfalso. apply (Qlt_not_le _ _ Hneg).
    apply backoff_nonneg; [done|apply Hrand]. }
  destruct n as [|n].
  - assert (Hfail : after_failure E w1 =
              set_breaker (opened (time_time E (clock_reads w1)) (breaker w1))
                          (tick_clock w1)).
    { unfold after_failure. rewrite failure_reaches; [done|]. rewrite Hb1. lia. }
    rewrite Hfail.
    match goal with |- context [retry_loop _ _ _ _ _ _ E ?w0] => set (w3 := w0) end.
    replace (S max_attempts - S k) with (S (max_attempts - S k)) by lia.
    change (seq (S k) (S (max_attempts - S k)))
      with (S k :: seq (S (S k)) (max_attempts - S k)).
    rewrite loop_cons, attempt_eq, request_eq, gate_eq.
    destruct (Qlt_le_dec _ _) as [_|Hge].
    2: { exfalso. subst w3. simpl in Hge. rewrite Hb1 in Hge.
         apply (Qlt_not_le _ _ (Hslow (clock_reads w1) (S (clock_reads w1)))), Hge. }
    cbv zeta.
    change (contains "retryable" (exn_str (RuntimeError "circuit-open"))) with false.
    cbn [negb orb fst snd].
    destruct (after_failure_frame E (tick_clock w3)) as ((Hc' & Hd' & _) & _).
    split; [done|]. split.
    + cbn [fn_calls set_dead_letter]. rewrite Hc'. subst w3. simpl.
      rewrite Hc1. lia.
    + cbn [dead_letter set_dead_letter]. rewrite Hd'. subst w3. simpl.
      by rewrite Hd1.
  - assert (Hfail : after_failure E w1 = set_breaker (counted (breaker w1)) w1).
    { unfold after_failure. rewrite failure_below; [done|]. rewrite Hb1. lia. }
    rewrite Hfail.
    match goal with |- context [retry_loop _ _ _ _ _ _ E ?w0] => set (w3 := w0) end.
    destruct (IH (S k) w3) as (Hraise & Hcalls & Hdead).
    + lia.
    + lia.
    + apply (bucket_ok_later E Hmono w1); subst w3; simpl; done.
    + subst w3. simpl. eapply Qle_trans; [|exact Ht1].
      rewrite !Nat2Z.inj_succ in Htok. unfold Z.succ in Htok.
      rewrite !Nat2Z.inj_succ. unfold Z.succ.
      rewrite !inject_Z_plus in *. change (inject_Z 1) with 1%Q in *. lra.
    + subst w3. simpl. rewrite Hb1. lia.
    + subst w3. simpl. rewrite Hb1, Hk1.
      eapply Qle_trans; [exact Hopen|]. apply Hmono. lia.
    + subst w3. simpl. by rewrite Hb1.
    + intros i Hi. subst w3. simpl. rewrite Hc1.
      replace (S (fn_calls w) + i) with (fn_calls w + S i) by lia.
      apply Hall. lia.
    + cbv zeta in Hraise, Hcalls, Hdead.
      split; [done|]. split.
      * rewrite Hcalls. subst w3. simpl. rewrite Hc1. lia.
      * rewrite Hdead. subst w3. simpl. by rewrite Hd1.
Qed.

End Trip.

(** X21.  Retries trip the shared breaker.  Take a clock that does not go
    backwards and moves by less than [reset_after] over the call, draws of
    [random.random()] in [[0, 1)] and [base_backoff] not negative.  When
    the breaker is closed and [n] failures away from its threshold, with
    [1 <= n < max_attempts], the bucket is sound and holds [n] tokens, and
    each of the next [n] calls of the wrapped function returns a response
    with a retryable status whose rate header, if there is one, is empty or
    a number that [float] reads, the call never reaches its last attempt:
    the [n]-th failure opens the breaker, the next attempt is rejected by
    [before()], and the caller gets [RuntimeError("circuit-open")] after
    exactly [n] calls of the function, with one entry of reason
    [circuit-open] on the queue. *)
Theorem retries_trip_the_breaker (E : env) (max_attempts : nat) (base_backoff : Q)
    (a : list pyobj) (kws : list (string * pyobj)) (fl n : nat) w :
  monotone_clock E →
  unit_random E →
  (0 <= base_backoff)%Q →
  1 ≤ n → n < max_attempts →
  bucket_ok E w →
  (inject_Z (Z.of_nat n) <= tokens (limiter w))%Q →
  (fail_count (breaker w) + Z.of_nat n = fail_threshold (breaker w))%Z →
  (open_until (breaker w) <= time_time E (clock_reads w))%Q →
  (∀ i j, time_time E j < time_time E i + reset_after (breaker w))%Q →
  (∀ i, i < n →
     ∃ resp st,
       fn E (fn_calls w + i) a kws = Returns resp
       ∧ status resp = Some st
       ∧ retryable_status st = true
       ∧ rate_header_ok E resp) →
  let r := wrapper max_attempts base_backoff a kws (S fl) E w in
  fst r = Raise (RuntimeError "circuit-open")
  ∧ fn_calls (snd r) = fn_calls w + n
  ∧ dead_letter (snd r) =
      deque_append {| args := a; kw := kws; reason := "circuit-open" |}
                   (dead_letter w).
Proof.
  intros Hmono Hrand Hbase Hn Hmax Hok Htok Hcount Hopen Hslow Hall.
  unfold wrapper.
  assert (Hall' : ∀ i, i < n → retryable_response E (fn E (fn_calls w + i) a kws)).
  { intros i Hi. destruct (Hall i Hi) as (resp & st & -> & Hst & Hretry & Hhdr).
    split; [by exists st|done]. }
  pose proof (trip E max_attempts base_backoff a kws fl Hmono Hrand Hbase n 1 w
                Hn ltac:(lia) Hok Htok Hcount Hopen Hslow Hall') as H.
  cbv zeta in H.
  replace (S max_attempts - 1) with max_attempts in H by lia.
  exact H.
Qed.


(** * The script of the module *)

Section Demo.
Variable E : env.
Variable params : nat → pyobj.
Variable fl : nat.
Hypothesis Hmono : monotone_clock E.
Hypothesis Hpos : (0 <= time_time E 0)%Q.
Hypothesis Hrand : unit_random E.
Hypothesis Hfloat : float E "10" = inl 10%Q.
Hypothesis Hfn : answers_like_fetch_pushshift E.

Lemma clock_nonneg i : (0 <= time_time E i)%Q.
Proof. eapply Qle_trans; [exact Hpos|]. apply Hmono. lia. Qed.

(** The gate of an attempt of the demo: the breaker stays closed. *)
Lemma demo_gate w :
  bucket_ok E w → (1 <= tokens (limiter w))%Q → (open_until (breaker w) <= 0)%Q →
  ∃ w0, (before ;; acquire (S fl) 1) E w = (Ret tt, w0)
    ∧ bucket_ok E w0
    ∧ (tokens (limiter w) - 1 <= tokens (limiter w0))%Q
    ∧ rate (limiter w0) = rate (limiter w)
    ∧ breaker w0 = breaker w
    ∧ dead_letter w0 = dead_letter w
    ∧ fn_calls w0 = fn_calls w.
Proof.
  intros Hok Htok Hopen.
  destruct (gate_passes E fl Hmono w Hok Htok) as (w0 & H);
    [pose proof (clock_nonneg (clock_reads w)); lra|].
  exists w0. tauto.
Qed.

(** An attempt whose call is not the 20th, 40th, ... of the function. *)
Lemma demo_attempt_200 a w :
  bucket_ok E w → (1 <= tokens (limiter w))%Q → (open_until (breaker w) <= 0)%Q →
  (S (fn_calls w) mod 20 =? 0)%nat = false →
  ∃ d w1, attempt a [] (S fl) E w = (Ret d, w1)
    ∧ bucket_ok E w1
    ∧ (tokens (limiter w) - 1 <= tokens (limiter w1))%Q
    ∧ rate (limiter w1) = rate (limiter w)
    ∧ breaker w1 = {| fail_threshold := fail_threshold (breaker w);
                      reset_after := reset_after (breaker w);
                      fail_count := 0;
                      open_until := open_until (breaker w) |}
    ∧ dead_letter w1 = dead_letter w
    ∧ fn_calls w1 = S (fn_calls w).
Proof.
  intros Hok Htok Hopen Hmod.
  destruct (demo_gate w Hok Htok Hopen) as (w0 & Hgate & Hok0 & Ht0 & Hr0 & Hb0 & Hd0 & Hc0).
  pose proof (Hfn (fn_calls w0) a []) as Hans.
  rewrite Hc0, Hmod in Hans. destruct Hans as (d & Hans). rewrite <- Hc0 in Hans.
  exists d. eexists.
  rewrite attempt_eq, request_eq, Hgate, Hans.
  match goal with |- context [adjust_rate ?r E ?w0] =>
    replace (adjust_rate r E w0) with (@Ret unit tt, w0) by reflexivity end.
  rewrite classify_eq.
  split; [reflexivity|].
  unfold success, modify. cbn [snd].
  split; [apply (bucket_ok_later E Hmono w0); simpl; done|].
  simpl. by rewrite Hb0, Hc0.
Qed.

(** An attempt whose call is the 20th, 40th, ... of the function: the rate
    becomes 10 and the attempt is to be retried. *)
Lemma demo_attempt_429 a w :
  bucket_ok E w → (1 <= tokens (limiter w))%Q → (open_until (breaker w) <= 0)%Q →
  (S (fn_calls w) mod 20 =? 0)%nat = true →
  ∃ w1, attempt a [] (S fl) E w = (Raise retryable_error, w1)
    ∧ bucket_ok E w1
    ∧ (tokens (limiter w) - 1 <= tokens (limiter w1))%Q
    ∧ rate (limiter w1) = 10%Q
    ∧ breaker w1 = breaker w
    ∧ dead_letter w1 = dead_letter w
    ∧ fn_calls w1 = S (fn_calls w).
Proof.
  intros Hok Htok Hopen Hmod.
  destruct (demo_gate w Hok Htok Hopen) as (w0 & Hgate & Hok0 & Ht0 & Hr0 & Hb0 & Hd0 & Hc0).
  pose proof (Hfn (fn_calls w0) a []) as Hans.
  rewrite Hc0, Hmod in Hans. rewrite <- Hc0 in Hans.
  eexists.
  rewrite attempt_eq, request_eq, Hgate, Hans.
  match goal with |- context [adjust_rate ?r E ?w0] =>
    replace (adjust_rate r E w0) with (@Ret unit tt, snd (set_rate 10 E w0)) end.
  2: { unfold adjust_rate.
       match goal with |- context [default ∅ ?h !! ?k] =>
         replace (default ∅ h !! k) with (Some "10") by reflexivity end.
       cbn [truthy]. unfold bind, py_float. by rewrite Hfloat. }
  rewrite classify_eq.
  split; [reflexivity|].
  split; [apply set_rate_ok, (bucket_ok_later E Hmono w0); simpl; done|].
  simpl. by rewrite Hc0.
Qed.

Lemma next_not_multiple c : S c mod 20 = 0 → S (S c) mod 20 ≠ 0.
Proof.
  intros H Hn.
  pose proof (Nat.Div0.div_mod (S c) 20).
  pose proof (Nat.Div0.div_mod (S (S c)) 20).
  lia.
Qed.

(** One call of the decorated function in the demo: it returns, after one
    call of the function or, on a 429, after two. *)
Lemma demo_call i budget w :
  (0 ≤ budget)%Z →
  demo_state E (budget + 2) w →
  ∃ d w', wrapper 6 (3 # 10) [params i] [] (S fl) E w = (Ret d, w')
    ∧ demo_state E budget w'
    ∧ fn_calls w' = calls_after (fn_calls w).
Proof.
  intros Hbudget (Hok & Htok & Hrate & Hbr & Hdead).
  rewrite inject_Z_plus in Htok. change (inject_Z 2) with 2%Q in Htok.
  assert (H0 : (0 <= inject_Z budget)%Q)
    by (change 0%Q with (inject_Z 0); by rewrite <- Zle_Qle).
  assert (Hopen : (open_until (breaker w) <= 0)%Q) by (rewrite Hbr; simpl; lra).
  unfold wrapper, calls_after.
  change (seq 1 6) with (1 :: 2 :: seq 3 4).
  rewrite loop_cons.
  destruct (S (fn_calls w) mod 20 =? 0)%nat eqn:Hmod.
  - destruct (demo_attempt_429 [params i] w Hok ltac:(lra) Hopen Hmod)
      as (w1 & -> & Hok1 & Ht1 & Hr1 & Hb1 & Hd1 & Hc1).
    cbv zeta.
    change (contains "retryable" (exn_str retryable_error)) with true.
    cbn [negb orb Nat.eqb].
    assert (Hfail : after_failure E w1 = set_breaker (counted (breaker w1)) w1).
    { unfold after_failure. rewrite failure_below; [done|].
      rewrite Hb1, Hbr. simpl. lia. }
    rewrite Hfail.
    destruct (Qlt_le_dec _ 0) as [Hneg|_].
    { exfalso. apply (Qlt_not_le _ _ Hneg).
      apply backoff_nonneg; [lra|apply Hrand]. }
    match goal with |- context [retry_loop _ _ _ _ _ _ E ?w0] => set (w3 := w0) end.
    assert (Hok3 : bucket_ok E w3)
      by (apply (bucket_ok_later E Hmono w1); subst w3; simpl; done).
    assert (Hmod3 : (S (fn_calls w3) mod 20 =? 0)%nat = false).
    { subst w3. simpl. rewrite Hc1.
      apply Nat.eqb_eq in Hmod. apply Nat.eqb_neq.
      by apply next_not_multiple. }
    assert (Hopen3 : (open_until (breaker w3) <= 0)%Q)
      by (subst w3; simpl; by rewrite Hb1).
    rewrite loop_cons.
    destruct (demo_attempt_200 [params i] w3 Hok3
                ltac:(subst w3; simpl; lra) Hopen3 Hmod3)
      as (d & w4 & -> & Hok4 & Ht4 & Hr4 & Hb4 & Hd4 & Hc4).
    exists d, w4. split; [done|].
    subst w3. simpl in Ht4, Hr4, Hb4, Hd4, Hc4.
    split; [|by rewrite Hc4, Hc1].
    split; [done|]. split; [lra|].
    split.
    { rewrite Hr4, Hr1, Hc4, Hc1.
      apply Nat.eqb_eq in Hmod.
      assert (20 ≤ S (S (fn_calls w))).
      { pose proof (Nat.Div0.div_mod (S (fn_calls w)) 20) as Hdm.
        rewrite Hmod in Hdm.
        destruct (S (fn_calls w) / 20) eqn:Hq; lia. }
      by destruct (Nat.leb_spec 20 (S (S (fn_calls w)))); [|lia]. }
    split; [rewrite Hb4, Hb1, Hbr; done|].
    by rewrite Hd4, Hd1.
  - destruct (demo_attempt_200 [params i] w Hok ltac:(lra) Hopen Hmod)
      as (d & w1 & -> & Hok1 & Ht1 & Hr1 & Hb1 & Hd1 & Hc1).
    exists d, w1. split; [done|]. split; [|done].
    split; [done|]. split; [lra|].
    split.
    { rewrite Hr1, Hrate, Hc1.
      apply Nat.eqb_neq in Hmod.
      assert (S (fn_calls w) ≠ 20) by (intros Heq; by rewrite Heq in Hmod).
      destruct (Nat.leb_spec 20 (fn_calls w)), (Nat.leb_spec 20 (S (fn_calls w)));
        first [done|lia]. }
    split; [rewrite Hb1, Hbr; done|].
    by rewrite Hd1.
Qed.

Lemma demo_loop ixs : ∀ ok out budget w,
  (0 ≤ budget)%Z →
  demo_state E (budget + 2 * Z.of_nat (length ixs)) w →
  ∃ w', main_loop params (S fl) ixs ok out E w =
          (Ret ((ok + Z.of_nat (length ixs))%Z, out), w')
    ∧ demo_state E budget w'
    ∧ fn_calls w' = Nat.iter (length ixs) calls_after (fn_calls w).
Proof.
  induction ixs as [|i ixs IH]; intros ok out budget w Hbudget Hst.
  - exists w. simpl in *. rewrite Z.add_0_r in *. done.
  - destruct (demo_call i (budget + 2 * Z.of_nat (length ixs)) w ltac:(lia))
      as (d & w1 & Hcall & Hst1 & Hc1).
    { replace (budget + 2 * Z.of_nat (length ixs) + 2)%Z
        with (budget + 2 * Z.of_nat (length (i :: ixs)))%Z
        by (simpl length; lia). done. }
    destruct (IH (ok + 1)%Z out budget w1 Hbudget Hst1) as (w' & Hrun & Hst' & Hc').
    exists w'. cbn [main_loop]. unfold bind at 1, catch. rewrite Hcall, Hrun.
    split; [|split; [done|]].
    + do 2 f_equal. simpl length. f_equal. lia.
    + rewrite Hc', Hc1. simpl length. by rewrite Nat.iter_succ_r.
Qed.


End Demo.

(** X20.  The demo run as a script.  With a clock that starts at a time
    not negative and does not go backwards, draws of [random.random()] in
    [[0, 1)], [float] reading ['10'] as 10 and the wrapped function
    answering as [fetch_pushshift] does (429 at every 20th call), all 60
    calls of [__main__] return: the script prints the single line
    [success: 60 dead_letter: 0], the function has been called 63 times
    (three calls were retried once), the limiter ends at 10 tokens per
    second, the breaker is closed with its counter at 0, and the queue is
    empty. *)
Theorem script_prints_all_success (E : env) (params : nat → pyobj) (fl : nat) w :
  monotone_clock E →
  (0 <= time_time E 0)%Q →
  unit_random E →
  float E "10" = inl 10%Q →
  answers_like_fetch_pushshift E →
  fn_calls w = 0 →
  fst (script params (S fl) E w) = Ret ["success: 60 dead_letter: 0"]
  ∧ fn_calls (snd (script params (S fl) E w)) = 63
  ∧ rate (limiter (snd (script params (S fl) E w))) = 10%Q
  ∧ breaker (snd (script params (S fl) E w)) = CircuitBreaker_init 5 15
  ∧ items (dead_letter (snd (script params (S fl) E w))) = [].
Proof.
  intros Hmono Hpos Hrand Hfloat Hfn Hc.
  set (w0 := set_breaker (CircuitBreaker_init 5 15)
               (set_limiter {| rate := 100; capacity := 200; tokens := inject_Z 200;
                               ts := time_time E (clock_reads w) |}
                  (tick_clock (set_dead_letter dead_letter_init w)))).
  assert (Hinit : module_init E w = (Ret tt, w0)) by done.
  assert (Hst : demo_state E (80 + 2 * Z.of_nat (length (seq 0 60))) w0).
  { split; [|split; [|split; [|done]]].
    - subst w0. unfold bucket_ok. simpl. repeat split; try done.
      apply Hmono. lia.
    - subst w0. simpl. rewrite <- Zle_Qle. done.
    - subst w0. simpl. by rewrite Hc. }
  destruct (demo_loop E params fl Hmono Hpos Hrand Hfloat Hfn (seq 0 60) 0 [] 80 w0
              ltac:(lia) Hst)
    as (w' & Hrun & (_ & _ & Hrate & Hbr & Hdead) & Hcalls).
  assert (Hn : fn_calls w' = 63).
  { rewrite Hcalls. subst w0. simpl fn_calls. rewrite Hc. by vm_compute. }
  assert (Hscript : script params (S fl) E w =
                      (Ret ["success: 60 dead_letter: 0"], w')).
  { unfold script, main. unfold bind at 1. rewrite Hinit.
    unfold bind at 1. rewrite Hrun. unfold bind, get, ret. cbn [fst snd].
    rewrite Hdead. by vm_compute. }
  rewrite Hscript. cbn [fst snd].
  split; [done|]. split; [done|]. split; [by rewrite Hrate, Hn|].
  split; [done|]. by rewrite Hdead.
Qed.

(** * The theorems at concrete runs *)

Lemma clock_seconds_monotone f : monotone_clock (env_of f).
Proof.
  intros i j Hij. unfold env_of, clock_seconds; simpl.
  rewrite <- Zle_Qle. lia.
Defined.

Lemma half_is_unit_random f : unit_random (env_of f).
Proof. intros i. simpl. split; lra. Defined.

Lemma demo_bucket_ok f : bucket_ok (env_of f) demo_world.
Proof. unfold bucket_ok; simpl. repeat split; by vm_compute. Defined.

(** C6 at the spec's example: capacity 3, four records. *)
Lemma deque_bounded_fifo_witness :
  items (record_all [1; 2; 3; 4] (Deque 3 [])) = [2; 3; 4]
  ∧ items (deque_append 4 (Deque 3 [1; 2; 3])) = [2; 3; 4].
Proof.
  split.
  - apply (deque_bounded_fifo (Deque 3 []) [1; 2; 3; 4] 0); simpl; first [lia|done].
  - apply (deque_bounded_fifo (Deque 3 [1; 2; 3]) [] 4); simpl; first [lia|done].
Defined.

(** C7 on the breaker of the demo: four failures count, the fifth opens. *)
Lemma failure_counts_then_opens_witness :
  repeat_m 4 failure (env_of (always_status 500)) demo_world =
    (Ret tt, set_breaker {| fail_threshold := 5; reset_after := 15;
                            fail_count := 4; open_until := 0 |} demo_world)
  ∧ repeat_m 5 failure (env_of (always_status 500)) demo_world =
    (Ret tt, set_breaker {| fail_threshold := 5; reset_after := 15;
                            fail_count := 0; open_until := 1 + 15 |}
                         (tick_clock demo_world)).
Proof.
  destruct (failure_counts_then_opens (env_of (always_status 500)) demo_world)
    as (_ & _ & Hbelow & Hreach).
  split.
  - apply (Hbelow eq_refl 4%nat). simpl. lia.
  - apply (Hreach eq_refl). simpl. lia.
Defined.

(** C5 on the limiter of the demo. *)
Lemma tokens_within_capacity_witness :
  let l' := limiter (run_ops demo_ops (env_of (always_status 200)) demo_world) in
  (0 <= tokens l')%Q ∧ (tokens l' <= inject_Z (capacity l'))%Q.
Proof.
  intros l'.
  destruct (tokens_within_capacity (env_of (always_status 200)) demo_ops demo_world)
    as (H0 & Hcap & _).
  - apply clock_seconds_monotone.
  - unfold demo_ops. repeat constructor; simpl; lia.
  - apply demo_bucket_ok.
  - by split.
Defined.

(** C5 as stated fails.  [DynamicRateLimiter(-1, 5)] is accepted by the
    constructor, which does not clamp the rate; an [acquire(5)] that polls
    for nine seconds refills with a negative amount at every turn and leaves
    the tokens at -4. *)
Lemma negative_rate_drains_below_zero : ¬ tokens_always_within_capacity.
Proof.
  intros Hclaim.
  destruct (Hclaim (env_of (always_status 200)) (-1)%Q 5%Z [OpAcquire 9 5]
              demo_world
              {| rate := -1; capacity := 5; tokens := inject_Z 5;
                 ts := clock_seconds 1 |}
              (tick_clock demo_world)) as (H0 & _).
  - lia.
  - repeat constructor. simpl. lia.
  - reflexivity.
  - by vm_compute in H0.
Qed.

(** C4 on a breaker that is open until second 100. *)
Lemma open_breaker_is_terminal_witness :
  fst (wrapper 6 (3 # 10) demo_args [] 3 (env_of (always_status 200)) open_world) =
    Raise (RuntimeError "circuit-open")
  ∧ fn_calls (snd (wrapper 6 (3 # 10) demo_args [] 3
                     (env_of (always_status 200)) open_world)) = 0%nat
  ∧ deque_len (dead_letter (snd (wrapper 6 (3 # 10) demo_args [] 3
                     (env_of (always_status 200)) open_world))) = 1%nat.
Proof.
  destruct (open_breaker_is_terminal (env_of (always_status 200)) 6 (3 # 10)
              demo_args [] 3 1 (seq 2 5) open_world) as (Hrun & _).
  - by vm_compute.
  - change (wrapper 6 (3 # 10) demo_args [] 3 (env_of (always_status 200)) open_world)
      with (retry_loop 6 (3 # 10) demo_args [] 3 (1 :: seq 2 5)
              (env_of (always_status 200)) open_world).
    rewrite Hrun. by vm_compute.
Defined.

(** C1 at status 404: two entries on the queue. *)
Lemma non_retryable_status_recorded_twice_witness :
  fst (wrapper 6 (3 # 10) demo_args [] 3 (env_of (always_status 404)) demo_world) =
    Raise no_active_exception
  ∧ items (dead_letter (snd (wrapper 6 (3 # 10) demo_args [] 3
                               (env_of (always_status 404)) demo_world))) =
      [ {| args := demo_args; kw := []; reason := "status-404" |};
        {| args := demo_args; kw := [];
           reason := "No active exception to reraise" |} ].
Proof.
  destruct (non_retryable_status_recorded_twice (env_of (always_status 404)) 6
              (3 # 10) demo_args [] 3 1 (seq 2 5) demo_world
              {| status := Some 404%Z; headers := Some ∅; data := Some PyNone |}
              (snd (request demo_args [] 3 (env_of (always_status 404)) demo_world))
              404%Z) as (Hraise & Hdead).
  - by vm_compute.
  - done.
  - done.
  - by vm_compute.
  - change (wrapper 6 (3 # 10) demo_args [] 3 (env_of (always_status 404)) demo_world)
      with (retry_loop 6 (3 # 10) demo_args [] 3 (1 :: seq 2 5)
              (env_of (always_status 404)) demo_world).
    split; [exact Hraise|]. rewrite Hdead. by vm_compute.
Defined.

(** C10 on a response without status. *)
Lemma missing_status_is_success_witness :
  wrapper 6 (3 # 10) demo_args [] 3 (env_of answers_without_status) demo_world =
    (Ret (PyInt 7),
     snd (success (env_of answers_without_status)
            (snd (request demo_args [] 3 (env_of answers_without_status)
                    demo_world)))).
Proof.
  destruct (missing_status_is_success (env_of answers_without_status) 6 (3 # 10)
              demo_args [] 3 resp_no_status eq_refl) as (_ & Hrun).
  destruct (Hrun 1%nat (seq 2 5) demo_world
              (snd (request demo_args [] 3 (env_of answers_without_status)
                      demo_world))
              (PyInt 7)) as (Hret & _).
  - by vm_compute.
  - done.
  - exact Hret.
Defined.

(** C9 on a 429 that advertises 10 rps: the second attempt starts with that
    rate. *)
Lemma rate_header_applied_before_classification_witness :
  rate (limiter (snd (attempt demo_args [] 3 (env_of always_throttled) demo_world)))
    = 10%Q
  ∧ ∃ w3,
      wrapper 6 (3 # 10) demo_args [] 3 (env_of always_throttled) demo_world =
        retry_loop 6 (3 # 10) demo_args [] 3 (seq 2 5) (env_of always_throttled) w3
      ∧ rate (limiter w3) = 10%Q.
Proof.
  destruct (rate_header_applied_before_classification (env_of always_throttled) 6
              (3 # 10) demo_args [] 3 1 (seq 2 5) demo_world
              (snd ((before ;; acquire 3 1) (env_of always_throttled) demo_world))
              {| status := Some 429%Z;
                 headers := Some (<["X-Rate-Limit-RPS" := "10"]> ∅);
                 data := Some PyNone |}
              "10" 10%Q) as (_ & _ & Hattempt & Hnext).
  - by vm_compute.
  - done.
  - by vm_compute.
  - done.
  - by vm_compute.
  - split; [rewrite Hattempt; by vm_compute|].
    destruct (Hnext 429%Z) as (w3 & Hloop & Hrate).
    + done.
    + by vm_compute.
    + lia.
    + by vm_compute.
    + apply half_is_unit_random.
    + exists w3. split; [exact Hloop|]. rewrite Hrate. by vm_compute.
Defined.

Lemma always_500_retryable (n : nat) (w w' : world) :
  fn_calls w' = (fn_calls w + n)%nat →
  every_attempt_retryable (env_of (always_status 500)) demo_args [] n w w'.
Proof.
  intros Hcalls. split; [done|].
  intros i _. simpl. split; [by exists 500%Z|].
  unfold rate_header_ok; simpl. by rewrite lookup_empty.
Defined.

(** C2 as amended, on three attempts that all answer 500. *)
Lemma exhaustion_surfaces_retryable_error_witness :
  fst (wrapper 3 (3 # 10) demo_args [] 3 (env_of (always_status 500)) demo_world) =
    Raise (RuntimeError "retryable")
  ∧ items (dead_letter (snd (wrapper 3 (3 # 10) demo_args [] 3
                               (env_of (always_status 500)) demo_world))) =
      [ {| args := demo_args; kw := []; reason := "retryable" |} ].
Proof.
  destruct (exhaustion_surfaces_retryable_error (env_of (always_status 500)) 3
              (3 # 10) demo_args [] 3 demo_world) as (Hraise & Hdead).
  - lia.
  - by vm_compute.
  - intros i _. eexists _, 500%Z. split; [reflexivity|].
    split; [done|]. split; [done|].
    unfold rate_header_ok; simpl. by rewrite lookup_empty.
  - split; [exact Hraise|]. rewrite Hdead. by vm_compute.
Defined.

(** C2 as stated fails: after three answers 500 the caller gets the
    retryable error of the loop itself. *)
Lemma exhaustion_has_no_error_of_its_own : ¬ exhaustion_has_its_own_error.
Proof.
  intros Hclaim.
  destruct (Hclaim (env_of (always_status 500)) 3%nat (3 # 10)%Q demo_args [] 3%nat
              demo_world) as (e & Hraise & Hne).
  - lia.
  - apply always_500_retryable. by vm_compute.
  - apply Hne.
    assert (Hrun : fst (wrapper 3 (3 # 10) demo_args [] 3
                          (env_of (always_status 500)) demo_world)
                   = Raise retryable_error) by (by vm_compute).
    rewrite Hrun in Hraise. by injection Hraise.
Qed.


(** The dead-letter policy as the spec words it fails at status 404. *)
Lemma two_dead_letters_at_404 : ¬ one_dead_letter_per_failure.
Proof.
  intros Hclaim.
  destruct (Hclaim (env_of (always_status 404)) 6%nat (3 # 10)%Q demo_args [] 3%nat
              demo_world no_active_exception) as (x & Hx).
  - by vm_compute.
  - apply (f_equal deque_len) in Hx. by vm_compute in Hx.
Qed.

(** C7 as stated fails.  The breaker of threshold 5 is open until second 100
    with its count at 0.  Four calls are rejected while it is open, and each
    rejection is counted as a failure; once the breaker has closed, one
    single failed call opens it again. *)
Lemma one_failure_reopens_after_rejections :
  let call := wrapper 1 (3 # 10) demo_args [] 3 in
  let w4 := snd (calls 4 call env_jump open_world) in
  let w5 := snd (calls 1 call env_jump w4) in
  fail_threshold (breaker open_world) = 5%Z
  ∧ fail_count (breaker open_world) = 0%Z
  ∧ fn_calls w4 = 0%nat
  ∧ fail_count (breaker w4) = 4%Z
  ∧ open_until (breaker w4) = 100%Q
  ∧ (open_until (breaker w4) <= time_time env_jump (clock_reads w4))%Q
  ∧ fn_calls w5 = 1%nat
  ∧ open_until (breaker w5) = 222%Q.
Proof. repeat split; by vm_compute. Qed.

(** * The further properties at concrete runs *)

(** X2: 250 tokens from the bucket of 200. *)
Lemma acquire_above_capacity_blocks_witness :
  fst (acquire 5 250 (env_of (always_status 200)) demo_world) ≠ Ret tt
  ∧ fst (acquire 5 250 (env_of (always_status 200)) demo_world) = Timeout.
Proof.
  destruct (acquire_above_capacity_blocks (env_of (always_status 200)) 5 250
              demo_world) as (Hne & Htimeout).
  - simpl. lia.
  - split; [exact Hne|]. apply Htimeout, half_is_unit_random.
Defined.

(** X3 on the full bucket of the demo. *)
Lemma acquire_returns_at_once_witness :
  fst (acquire 1 1 (env_of (always_status 200)) demo_world) = Ret tt
  ∧ tokens (limiter (snd (acquire 1 1 (env_of (always_status 200)) demo_world)))
      = (refill 1 (limiter demo_world) - 1)%Q
  ∧ sleeps (snd (acquire 1 1 (env_of (always_status 200)) demo_world)) = [].
Proof.
  destruct (acquire_returns_at_once (env_of (always_status 200)) 0 1 demo_world)
    as (Hret & _ & _ & Hsleeps & Htok & _).
  - apply demo_bucket_ok.
  - by vm_compute.
  - split; [exact Hret|]. split; [exact Htok|exact Hsleeps].
Defined.

(** X5 on the limiter of the demo. *)
Lemma init_then_acquire_witness :
  fst (acquire 1 3 (env_of (always_status 200))
         (set_limiter {| rate := 100; capacity := 200; tokens := inject_Z 200;
                         ts := clock_seconds 1 |} (tick_clock demo_world)))
    = Ret tt
  ∧ tokens (limiter (snd (acquire 1 3 (env_of (always_status 200))
         (set_limiter {| rate := 100; capacity := 200; tokens := inject_Z 200;
                         ts := clock_seconds 1 |} (tick_clock demo_world)))))
    = (inject_Z 200 - inject_Z 3)%Q.
Proof.
  destruct (init_then_acquire (env_of (always_status 200)) 100 200 0 3 demo_world
              {| rate := 100; capacity := 200; tokens := inject_Z 200;
                 ts := clock_seconds 1 |} (tick_clock demo_world))
    as (_ & _ & _ & _ & Hret & Htok).
  - apply clock_seconds_monotone.
  - lra.
  - lia.
  - lia.
  - reflexivity.
  - split; [exact Hret|exact Htok].
Defined.

(** X9 on the drained limiter of rate 0. *)
Lemma acquire_without_rate_blocks_witness :
  fst (acquire 7 1 (env_of (always_status 200)) drained_world) ≠ Ret tt
  ∧ fst (acquire 7 1 (env_of (always_status 200)) drained_world) = Timeout.
Proof.
  destruct (acquire_without_rate_blocks (env_of (always_status 200)) 7 1
              drained_world) as (Hne & Htimeout).
  - apply clock_seconds_monotone.
  - by vm_compute.
  - by vm_compute.
  - by vm_compute.
  - split; [exact Hne|]. apply Htimeout, half_is_unit_random.
Defined.

(** X6 on the breaker of the demo. *)
Lemma breaker_count_stays_below_witness :
  count_in_range
    (breaker (run_breaker_ops demo_breaker_ops (env_of (always_status 200)) demo_world))
  ∧ fail_threshold
      (breaker (run_breaker_ops demo_breaker_ops (env_of (always_status 200))
                  demo_world)) = 5%Z.
Proof.
  destruct (breaker_count_stays_below (env_of (always_status 200)) demo_breaker_ops
              demo_world) as (Hr & Ht & _).
  - unfold count_in_range. simpl. lia.
  - split; [exact Hr|exact Ht].
Defined.

(** X7: the fifth failure at second 1 opens the breaker until second 16; three
    readings later the clock shows 5 and [before()] rejects. *)
Lemma opened_breaker_rejects_until_cooldown_witness :
  fst (before (env_of (always_status 200))
         (Nat.iter 3 tick_clock
            (snd (failure (env_of (always_status 200)) nearly_open_world))))
    = Raise (RuntimeError "circuit-open").
Proof.
  destruct (opened_breaker_rejects_until_cooldown (env_of (always_status 200)) 3
              nearly_open_world) as (_ & (_ & Hopen) & _).
  - simpl. lia.
  - apply Hopen. by vm_compute.
Defined.

(** X8 on the open breaker. *)
Lemma success_resets_count_only_witness :
  open_until (breaker (snd (success (env_of (always_status 200)) open_world)))
    = 100%Q
  ∧ open_until (breaker (snd (repeat_m 4 failure (env_of (always_status 200))
                   (snd (success (env_of (always_status 200)) open_world)))))
    = 100%Q.
Proof.
  destruct (success_resets_count_only (env_of (always_status 200)) open_world)
    as (_ & _ & Hopen & _ & _ & _ & _ & _ & _ & _ & _ & _ & Hrow).
  split; [exact Hopen|].
  destruct (Hrow 4) as (H & _); [simpl; lia|exact H].
Defined.

(** X11 on a caller that is handling a retryable error of its own when it
    calls the wrapper: a 404 is recorded and retried, the 200 that follows
    is returned. *)
Lemma wrapper_returns_payload_witness :
  (∃ sts, length sts ≤ 5
     ∧ dead_letter (snd (wrapper_in (handling (RuntimeError "retryable upstream"))
                           6 (3 # 10) demo_args [] 3 (env_of not_found_then_ok)
                           demo_world)) =
         record_all (map (status_entry demo_args []) sts) (dead_letter demo_world))
  ∧ fail_count (breaker (snd (wrapper_in (handling (RuntimeError "retryable upstream"))
                                6 (3 # 10) demo_args [] 3 (env_of not_found_then_ok)
                                demo_world))) = 0%Z.
Proof.
  destruct (wrapper_returns_payload (handling (RuntimeError "retryable upstream"))
              (env_of not_found_then_ok) 6 (3 # 10) demo_args [] 3 demo_world
              (PyInt 7)
              (snd (wrapper_in (handling (RuntimeError "retryable upstream"))
                      6 (3 # 10) demo_args [] 3 (env_of not_found_then_ok)
                      demo_world)))
    as ((sts & _ & Hlen & _ & Hdead) & _ & [(Hmax & _)|(Hcount & _)]).
  - by vm_compute.
  - discriminate Hmax.
  - split; [|exact Hcount]. exists sts. split; [exact Hlen|exact Hdead].
Defined.

(** X12 at top level, on two attempts that both get a 500. *)
Lemma failure_is_recorded_last_witness :
  dead_letter (snd (wrapper_in top_level 2 (3 # 10) demo_args [] 3
                      (env_of (always_status 500)) demo_world)) =
    deque_append {| args := demo_args; kw := []; reason := "retryable" |}
                 (dead_letter demo_world).
Proof.
  destruct (failure_is_recorded_last top_level (env_of (always_status 500)) 2 (3 # 10)
              demo_args [] 3 demo_world retryable_error
              (snd (wrapper_in top_level 2 (3 # 10) demo_args [] 3
                      (env_of (always_status 500)) demo_world)))
    as (sts & _ & _ & Hfew & Hrec & _).
  - lra.
  - apply half_is_unit_random.
  - by vm_compute.
  - rewrite Hrec by (by vm_compute).
    destruct Hfew as [->|(st & _ & Hbare)]; [by vm_compute|done|].
    discriminate Hbare.
Defined.

(** X13 at top level: a [ValueError] of the function is recorded, a
    [SystemExit] is not. *)
Lemma function_error_is_terminal_witness :
  items (dead_letter (snd (wrapper_in top_level 6 (3 # 10) demo_args [] 3
                             (env_of (always_raises (ValueError "boom")))
                             demo_world)))
    = [ {| args := demo_args; kw := []; reason := "boom" |} ]
  ∧ wrapper_in top_level 6 (3 # 10) demo_args [] 3
      (env_of (always_raises (Exn "SystemExit" "bye"))) demo_world
    = (Raise (Exn "SystemExit" "bye"),
       tick_fn (snd ((before ;; acquire 3 1)
                       (env_of (always_raises (Exn "SystemExit" "bye")))
                       demo_world))).
Proof.
  split.
  - destruct (function_error_is_terminal top_level
                (env_of (always_raises (ValueError "boom")))
                6 (3 # 10) demo_args [] 3 1 (seq 2 5) demo_world
                (snd ((before ;; acquire 3 1)
                        (env_of (always_raises (ValueError "boom"))) demo_world))
                (ValueError "boom")) as (_ & Hrec).
    + by vm_compute.
    + done.
    + destruct Hrec as (Hrun & _); [by vm_compute|by vm_compute|].
      change (wrapper_in top_level 6 (3 # 10) demo_args [] 3
                (env_of (always_raises (ValueError "boom"))) demo_world)
        with (retry_loop_in top_level 6 (3 # 10) demo_args [] 3 (1 :: seq 2 5)
                (env_of (always_raises (ValueError "boom"))) demo_world).
      rewrite Hrun. by vm_compute.
  - destruct (function_error_is_terminal top_level
                (env_of (always_raises (Exn "SystemExit" "bye")))
                6 (3 # 10) demo_args [] 3 1 (seq 2 5) demo_world
                (snd ((before ;; acquire 3 1)
                        (env_of (always_raises (Exn "SystemExit" "bye")))
                        demo_world))
                (Exn "SystemExit" "bye")) as (Hesc & _).
    + by vm_compute.
    + done.
    + destruct Hesc as (Hrun & _); [by vm_compute|exact Hrun].
Defined.

(** X14 on a function whose own error message happens to contain the word. *)
Lemma retryable_message_is_retried_witness :
  ∃ w3,
    wrapper_in top_level 6 (3 # 10) demo_args [] 3
      (env_of (always_raises (ValueError "not retryable at all"))) demo_world =
    retry_loop_in top_level 6 (3 # 10) demo_args [] 3 (seq 2 5)
      (env_of (always_raises (ValueError "not retryable at all"))) w3
    ∧ fn_calls w3 = 1
    ∧ dead_letter w3 = dead_letter demo_world.
Proof.
  destruct (retryable_message_is_retried top_level
              (env_of (always_raises (ValueError "not retryable at all")))
              6 (3 # 10) demo_args [] 3 1 (seq 2 5) demo_world
              (snd ((before ;; acquire 3 1)
                      (env_of (always_raises (ValueError "not retryable at all")))
                      demo_world))
              (ValueError "not retryable at all")) as (Hrun & _ & Hdead & Hcalls).
  - by vm_compute.
  - done.
  - by vm_compute.
  - by vm_compute.
  - lia.
  - lra.
  - apply half_is_unit_random.
  - eexists. split; [exact Hrun|]. split; [exact Hcalls|exact Hdead].
Defined.

(** X19 on three calls from an [except] block that handles a retryable
    error, the function answering 404 every time. *)
Lemma dead_letter_stays_bounded_witness :
  maxlen (dead_letter (snd (calls 3
            (wrapper_in (handling (RuntimeError "retryable upstream"))
               6 (3 # 10) demo_args [] 3)
            (env_of (always_status 404)) demo_world)))
    = Z.to_nat 10000
  ∧ deque_len (dead_letter (snd (calls 3
            (wrapper_in (handling (RuntimeError "retryable upstream"))
               6 (3 # 10) demo_args [] 3)
            (env_of (always_status 404)) demo_world)))
    ≤ 21.
Proof.
  destruct (dead_letter_stays_bounded (handling (RuntimeError "retryable upstream"))
              (env_of (always_status 404)) 6 (3 # 10) demo_args [] 3 3 demo_world)
    as (Hmax & _ & Hlen & _).
  - unfold deque_len. simpl. lia.
  - split; [exact Hmax|exact Hlen].
Defined.

(** X15 on a 200 without payload. *)
Lemma missing_data_is_a_failure_witness :
  fst (wrapper 6 (3 # 10) demo_args [] 3 (env_of (always_returns resp_no_data))
         demo_world) = Raise (KeyError "data")
  ∧ items (dead_letter (snd (wrapper 6 (3 # 10) demo_args [] 3
                               (env_of (always_returns resp_no_data)) demo_world)))
    = [ {| args := demo_args; kw := []; reason := "'data'" |} ].
Proof.
  destruct (missing_data_is_a_failure (env_of (always_returns resp_no_data))
              6 (3 # 10) demo_args [] 3 1 (seq 2 5) demo_world resp_no_data
              (snd (request demo_args [] 3 (env_of (always_returns resp_no_data))
                      demo_world))) as (Hrun & _).
  - by vm_compute.
  - done.
  - done.
  - change (wrapper 6 (3 # 10) demo_args [] 3
              (env_of (always_returns resp_no_data)) demo_world)
      with (retry_loop 6 (3 # 10) demo_args [] 3 (1 :: seq 2 5)
              (env_of (always_returns resp_no_data)) demo_world).
    rewrite Hrun. split; [done|by vm_compute].
Defined.

(** X16 on a 200 whose rate header reads [fast]. *)
Lemma unreadable_rate_header_is_terminal_witness :
  fst (wrapper 6 (3 # 10) demo_args [] 3 (env_of (always_returns resp_bad_header))
         demo_world)
    = Raise (ValueError "could not convert string to float: 'fast'")
  ∧ rate (limiter (snd (wrapper 6 (3 # 10) demo_args [] 3
                          (env_of (always_returns resp_bad_header)) demo_world)))
    = 100%Q.
Proof.
  destruct (unreadable_rate_header_is_terminal
              (env_of (always_returns resp_bad_header))
              6 (3 # 10) demo_args [] 3 1 (seq 2 5) demo_world
              (snd ((before ;; acquire 3 1)
                      (env_of (always_returns resp_bad_header)) demo_world))
              resp_bad_header "fast"
              (ValueError "could not convert string to float: 'fast'"))
    as (Hrun & Hrate).
  - by vm_compute.
  - done.
  - by vm_compute.
  - done.
  - by vm_compute.
  - by vm_compute.
  - change (wrapper 6 (3 # 10) demo_args [] 3
              (env_of (always_returns resp_bad_header)) demo_world)
      with (retry_loop 6 (3 # 10) demo_args [] 3 (1 :: seq 2 5)
              (env_of (always_returns resp_bad_header)) demo_world).
    rewrite Hrun. split; [done|]. cbn [snd limiter set_dead_letter]. exact Hrate.
Defined.

(** X18 with [base_backoff = -1] on a 500. *)
Lemma negative_backoff_escapes_unrecorded_witness :
  fst (wrapper 6 (-1) demo_args [] 3 (env_of (always_status 500)) demo_world)
    = Raise (ValueError "sleep length must be non-negative")
  ∧ dead_letter (snd (wrapper 6 (-1) demo_args [] 3 (env_of (always_status 500))
                        demo_world)) = dead_letter demo_world.
Proof.
  destruct (negative_backoff_escapes_unrecorded (env_of (always_status 500))
              6 (-1) demo_args [] 3 1 (seq 2 5) demo_world
              {| status := Some 500%Z; headers := Some ∅; data := Some PyNone |}
              (snd (request demo_args [] 3 (env_of (always_status 500)) demo_world))
              500%Z) as (Hraise & Hdead & _).
  - by vm_compute.
  - done.
  - done.
  - lia.
  - lra.
  - apply half_is_unit_random.
  - split; [exact Hraise|exact Hdead].
Defined.

Lemma fetch_pushshift_answers : answers_like_fetch_pushshift (env_of fetch_pushshift).
Proof.
  intros i a k. unfold env_of, fetch_pushshift. cbn [fn].
  destruct (S i mod 20 =? 0)%nat; [reflexivity|]. eexists. reflexivity.
Defined.

(** X20 on the clock that advances by a second at each reading. *)
Lemma script_prints_all_success_witness :
  fst (script demo_params 1 (env_of fetch_pushshift) demo_world)
    = Ret ["success: 60 dead_letter: 0"]
  ∧ fn_calls (snd (script demo_params 1 (env_of fetch_pushshift) demo_world)) = 63.
Proof.
  destruct (script_prints_all_success (env_of fetch_pushshift) demo_params 0
              demo_world) as (Hout & Hcalls & _).
  - apply clock_seconds_monotone.
  - by vm_compute.
  - apply half_is_unit_random.
  - by vm_compute.
  - apply fetch_pushshift_answers.
  - done.
  - split; [exact Hout|exact Hcalls].
Defined.

(** X21 on the demo's breaker (threshold 5) and six attempts that would all
    get a 503: the sixth is never made. *)
Lemma retries_trip_the_breaker_witness :
  fst (wrapper 6 (3 # 10) demo_args [] 1 (env_still (always_status 503)) demo_world)
    = Raise (RuntimeError "circuit-open")
  ∧ fn_calls (snd (wrapper 6 (3 # 10) demo_args [] 1
                     (env_still (always_status 503)) demo_world)) = 5.
Proof.
  destruct (retries_trip_the_breaker (env_still (always_status 503)) 6 (3 # 10)
              demo_args [] 0 5 demo_world) as (Hraise & Hcalls & _).
  - intros i j _. simpl. lra.
  - intros i. simpl. split; lra.
  - lra.
  - lia.
  - lia.
  - unfold bucket_ok; simpl. repeat split; by vm_compute.
  - by vm_compute.
  - simpl. lia.
  - by vm_compute.
  - intros i j. simpl. lra.
  - intros i _. eexists _, 503%Z. split; [reflexivity|].
    split; [done|]. split; [done|].
    unfold rate_header_ok; simpl. by rewrite lookup_empty.
  - split; [exact Hraise|exact Hcalls].
Defined.
